(** * jsontrim: a shallow embedding of the trimming engine

    The development follows [jsontrim.go].  A decoded JSON document is the
    tree that [json.Unmarshal] stores in an [interface{}]; the pipeline of
    [Trimmer.Trim] (blacklist stripping, hooks, field trimming, total
    enforcement, final size check) is translated function by function.

    Modelling conventions.
    - Go's [int] is [Z].  Every integer the code computes is a length, a
      depth, a size sum or [FieldLimit - 6]; none of them gets near the
      bounds of a machine word on a document that fits in memory.
    - Go strings are byte strings: [string] of Rocq, one [ascii] per byte.
    - A [float64] is carried as the text [json.Marshal] prints for it.
    - A Go map is an association list; its order stands for the iteration
      order of [range], which Go leaves unspecified.  Keys are unique in
      every map that comes out of [json.Unmarshal].
    - Go's [nil] interface is one value, [VNil]: it is what JSON [null]
      decodes to and also what the code returns for "removed".
    - A hook maps a document to a document, so [json.Marshal] has nothing
      it cannot encode and its error branches are left out.
    - The [for] loop of [enforceTotal] takes a bound on its turns; a run
      that needs more ends in [OutOfFuel]. *)

From Stdlib Require Import ZArith List String Ascii Bool Lia.
From Stdlib Require Import Decimal DecimalNat DecimalString.
Import ListNotations.

Local Open Scope list_scope.
Local Open Scope string_scope.
Local Open Scope Z_scope.

(** ** Values *)

#[warnings="-register-all"]
Inductive Value : Type :=
| VNil
| VBool (b : bool)
| VNum (repr : string)
| VStr (s : string)
| VObj (m : list (string * Value))
| VArr (l : list Value).

(** ** Strings and integers of the Go runtime *)

(** [len(s)] *)
Definition len (s : string) : Z := Z.of_nat (String.length s).

(** [strings.HasPrefix(s, p)] *)
Definition HasPrefix (s p : string) : bool := String.prefix p s.

(** [s[:n]] and [s[n:]] *)
Definition slice_to (n : nat) (s : string) : string := substring 0 n s.
Definition slice_from (n : nat) (s : string) : string :=
  substring n (String.length s - n) s.

(** [fmt.Sprintf("%d", i)] for an index. *)
Definition itoa (i : nat) : string := NilZero.string_of_uint (Nat.to_uint i).

(** [strings.Split(p, ".")]: cut at every dot, [n] dots give [n+1] parts. *)
Fixpoint Split_dot (p : string) : list string :=
  match p with
  | EmptyString => [EmptyString]
  | String c rest =>
      if Ascii.eqb c "."%char then EmptyString :: Split_dot rest
      else match Split_dot rest with
           | [] => [String c EmptyString]
           | part :: parts => String c part :: parts
           end
  end.

(** ** The association list standing for a Go map *)

Section GoMap.
Context {A : Type}.

(** [m[k]], [None] when the key is missing. *)
Fixpoint map_get (k : string) (m : list (string * A)) : option A :=
  match m with
  | [] => None
  | (k', x) :: m' => if String.eqb k k' then Some x else map_get k m'
  end.

(** [m[k] = x] *)
Fixpoint map_set (k : string) (x : A) (m : list (string * A)) : list (string * A) :=
  match m with
  | [] => [(k, x)]
  | (k', x') :: m' =>
      if String.eqb k k' then (k, x) :: m' else (k', x') :: map_set k x m'
  end.

(** [delete(m, k)] *)
Fixpoint map_delete (k : string) (m : list (string * A)) : list (string * A) :=
  match m with
  | [] => []
  | (k', x') :: m' =>
      if String.eqb k k' then map_delete k m' else (k', x') :: map_delete k m'
  end.
End GoMap.

(** ** [json.Marshal] *)

Module Json.

Definition hex_digit (n : N) : ascii :=
  match n with
  | 0%N => "0" | 1%N => "1" | 2%N => "2" | 3%N => "3" | 4%N => "4"
  | 5%N => "5" | 6%N => "6" | 7%N => "7" | 8%N => "8" | 9%N => "9"
  | 10%N => "a" | 11%N => "b" | 12%N => "c" | 13%N => "d" | 14%N => "e"
  | _ => "f"
  end%char.

(** How the encoder writes one ASCII byte (HTML escaping is on in
    [json.Marshal]): the byte itself when it is safe, a two byte escape
    for the quote, the backslash and the short control escapes (backspace
    and form feed among them, as Go writes them since 1.22), and [\u00XX]
    for the other control bytes and for [<], [>], [&]. *)
Definition escape_ascii (c : ascii) : string :=
  let n := N_of_ascii c in
  let two (e : ascii) := String "\"%char (String e EmptyString) in
  if (n =? 34)%N then two "034"%char
  else if (n =? 92)%N then two "\"%char
  else if (n =? 8)%N then two "b"%char
  else if (n =? 12)%N then two "f"%char
  else if (n =? 10)%N then two "n"%char
  else if (n =? 13)%N then two "r"%char
  else if (n =? 9)%N then two "t"%char
  else if ((n <? 32) || (n =? 60) || (n =? 62) || (n =? 38))%N then
    String "\"%char (String "u"%char (String "0"%char (String "0"%char
      (String (hex_digit (N.shiftr n 4))
         (String (hex_digit (N.land n 15)) EmptyString)))))
  else String c EmptyString.

(** [utf8.DecodeRuneInString] at a byte [>= 0x80], as far as the encoder
    uses it: the size of the well-formed sequence that starts here, or
    [0] when the bytes are not well formed (the encoder then writes
    the six bytes of the escaped U+FFFD and moves on by one byte). *)
Definition in_range (lo hi : N) (c : ascii) : bool :=
  let n := N_of_ascii c in ((lo <=? n) && (n <=? hi))%N.

Definition utf8_size (s0 : ascii) (rest : string) : nat :=
  let b := N_of_ascii s0 in
  let cont := in_range 128 191 in
  let seq (size : nat) (lo hi : N) : nat :=
    match rest with
    | String s1 r1 =>
        if negb (in_range lo hi s1) then 0%nat
        else if (size <=? 2)%nat then 2%nat
        else match r1 with
             | String s2 r2 =>
                 if negb (cont s2) then 0%nat
                 else if (size <=? 3)%nat then 3%nat
                 else match r2 with
                      | String s3 _ => if cont s3 then 4%nat else 0%nat
                      | EmptyString => 0%nat
                      end
             | EmptyString => 0%nat
             end
    | EmptyString => 0%nat
    end in
  if (b <? 194)%N then 0%nat
  else if (b <=? 223)%N then seq 2%nat 128%N 191%N
  else if (b =? 224)%N then seq 3%nat 160%N 191%N
  else if (b =? 237)%N then seq 3%nat 128%N 159%N
  else if (b <=? 239)%N then seq 3%nat 128%N 191%N
  else if (b =? 240)%N then seq 4%nat 144%N 191%N
  else if (b <=? 243)%N then seq 4%nat 128%N 191%N
  else if (b =? 244)%N then seq 4%nat 128%N 143%N
  else 0%nat.

(** U+2028 and U+2029 (bytes E2 80 A8 and E2 80 A9) are always escaped. *)
Definition line_sep (s0 : ascii) (rest : string) : option ascii :=
  match rest with
  | String s1 (String s2 _) =>
      if ((N_of_ascii s0 =? 226) && (N_of_ascii s1 =? 128))%N then
        if (N_of_ascii s2 =? 168)%N then Some "8"%char
        else if (N_of_ascii s2 =? 169)%N then Some "9"%char
        else None
      else None
  | _ => None
  end.

(** The body of the encoder's string loop.  [copy] counts the
    continuation bytes of a sequence still to be copied, [drop] those of
    an escaped separator still to be skipped. *)
Fixpoint escape_bytes (copy drop : nat) (s : string) : string :=
  match s with
  | EmptyString => EmptyString
  | String c rest =>
      match drop, copy with
      | S d, _ => escape_bytes copy d rest
      | O, S n => String c (escape_bytes n O rest)
      | O, O =>
          if (N_of_ascii c <? 128)%N then
            escape_ascii c ++ escape_bytes O O rest
          else
            match utf8_size c rest with
            | O => "\ufffd" ++ escape_bytes O O rest
            | S n =>
                match line_sep c rest with
                | Some d =>
                    "\u202" ++ String d (escape_bytes O 2%nat rest)
                | None => String c (escape_bytes n O rest)
                end
            end
      end
  end.

(** [appendString]: the quoted, escaped form of a Go string. *)
Definition appendString (s : string) : string :=
  String "034"%char (escape_bytes O O s ++ String "034"%char EmptyString).

(** Object members are written in the byte order of their keys: the
    encoder sorts the keys of the map, as they are, before it writes
    them. *)
Fixpoint insert_sorted (kv : string * string) (l : list (string * string)) :
  list (string * string) :=
  match l with
  | [] => [kv]
  | kv' :: l' =>
      if String.leb (fst kv) (fst kv') then kv :: l
      else kv' :: insert_sorted kv l'
  end.

Definition sort_members (l : list (string * string)) : list (string * string) :=
  fold_right insert_sorted [] l.

Fixpoint Marshal (v : Value) : string :=
  match v with
  | VNil => "null"
  | VBool true => "true"
  | VBool false => "false"
  | VNum repr => repr
  | VStr s => appendString s
  | VObj m =>
      let members := map (fun kv => (fst kv, Marshal (snd kv))) m in
      "{" ++ String.concat ","
               (map (fun kv => appendString (fst kv) ++ ":" ++ snd kv)
                  (sort_members members))
          ++ "}"
  | VArr l => "[" ++ String.concat "," (map Marshal l) ++ "]"
  end.

End Json.

(** ** Configuration *)

(** [ErrCannotTrim], and the error of [json.Unmarshal]. *)
Inductive Error : Type :=
| ErrCannotTrim
| ErrUnmarshal.

(** [Marker] *)
Definition Marker : string := "[TRIMMED]".

#[warnings="-register-all"]
Inductive TruncStrategy : Type :=
| RemoveLargest
| FIFO
| PrioritizeKeys (KeepKeys : list string) (Fallback : option TruncStrategy)
| UserStrategy (select : Value -> string).

Record Hooks : Type := mkHooks {
  PreTrim : option (Value -> Value);
  PostTrim : option (Value -> option Error -> Value)
}.

Record Config : Type := mkConfig {
  FieldLimit : Z;
  TotalLimit : Z;
  Blacklist : list string;
  Strategy : option TruncStrategy;
  MaxDepth : Z;
  TruncateStrings : bool;
  ReplaceWithMarker : bool;
  hooks : Hooks
}.

Record Trimmer : Type := mkTrimmer {
  cfg : Config;
  blacklistParts : list (list string)
}.

(** ** Size estimate

    The [default] branch of the source, for values that are not JSON, has
    no counterpart: a [Value] is always one of the six cases. *)

Fixpoint estimateSize (v : Value) : Z :=
  match v with
  | VNil => 0
  | VStr val => len val + 2
  | VBool val => if val then 4 else 5
  | VNum _ => 8
  | VObj val =>
      fold_left
        (fun s kv => s + (len (fst kv) + 2 + 1) + estimateSize (snd kv) + 1)
        val 2
  | VArr val => fold_left (fun s sub => s + estimateSize sub + 1) val 2
  end.

(** ** Removal strategies *)

(** [fmt.Sprintf("%d", n)] *)
Definition Sprintf_d (n : Z) : string :=
  if n <? 0 then "-" ++ itoa (Z.to_nat (- n)) else itoa (Z.to_nat n).

Definition RemoveLargest_select (v : Value) : string :=
  match v with
  | VObj vv =>
      fst (fold_left
             (fun (acc : string * Z) (kv : string * Value) =>
                let sz := estimateSize (snd kv) in
                if sz >? snd acc then (fst kv, sz) else acc)
             vv ("", 0))
  | VArr vv =>
      let maxIdx :=
        snd (fst (fold_left
                    (fun (acc : Z * Z * Z) (item : Value) =>
                       let '(i, maxIdx, maxSize) := acc in
                       let sz := estimateSize item in
                       if sz >? maxSize then (i + 1, i, sz)
                       else (i + 1, maxIdx, maxSize))
                    vv (0, -1, 0))) in
      if maxIdx >=? 0 then "idx:" ++ Sprintf_d maxIdx else ""
  | _ => ""
  end.

Definition FIFO_select (v : Value) : string :=
  match v with
  | VObj vv => match vv with (k, _) :: _ => k | [] => "" end
  | VArr vv => if Z.of_nat (List.length vv) >? 0 then "idx:" ++ Sprintf_d 0 else ""
  | _ => ""
  end.

Definition isKeepKey (KeepKeys : list string) (k : string) : bool :=
  existsb (fun kk => String.eqb k kk) KeepKeys.

Fixpoint SelectNextToRemove (s : TruncStrategy) : Value -> string :=
  match s with
  | RemoveLargest => RemoveLargest_select
  | FIFO => FIFO_select
  | PrioritizeKeys KeepKeys Fallback =>
      let fallback :=
        match Fallback with
        | Some f => SelectNextToRemove f
        | None => FIFO_select
        end in
      fun v =>
        if Z.of_nat (List.length KeepKeys) =? 0 then fallback v
        else match v with
             | VObj vv =>
                 let candidates :=
                   fold_left
                     (fun c (kv : string * Value) =>
                        if isKeepKey KeepKeys (fst kv) then c
                        else map_set (fst kv) (snd kv) c)
                     vv [] in
                 if Z.of_nat (List.length candidates) >? 0
                 then fallback (VObj candidates)
                 else fallback v
             | _ => ""
             end
  | UserStrategy select => select
  end.

(** ** [New] *)

Definition New (c : Config) : Trimmer :=
  let c :=
    {| FieldLimit := if FieldLimit c =? 0 then 500 else FieldLimit c;
       TotalLimit := if TotalLimit c =? 0 then 1024 else TotalLimit c;
       Blacklist := Blacklist c;
       Strategy := match Strategy c with
                   | None => Some RemoveLargest
                   | Some s => Some s
                   end;
       MaxDepth := if MaxDepth c =? 0 then 10 else MaxDepth c;
       TruncateStrings := TruncateStrings c;
       ReplaceWithMarker := ReplaceWithMarker c;
       hooks :=
         {| PreTrim := match PreTrim (hooks c) with
                       | None => Some (fun v => v)
                       | Some f => Some f
                       end;
            PostTrim := match PostTrim (hooks c) with
                        | None => Some (fun v _ => v)
                        | Some f => Some f
                        end |} |} in
  {| cfg := c; blacklistParts := map Split_dot (Blacklist c) |}.

(** ** Blacklist *)

(** The inner loop of [matchesBlacklist], run on a rule as long as the path. *)
Fixpoint rule_matches (rule path : list string) : bool :=
  match rule, path with
  | part :: rule', seg :: path' =>
      if negb (String.eqb part "*") && negb (String.eqb part seg) then false
      else rule_matches rule' path'
  | _, _ => true
  end.

Definition matchesBlacklist (t : Trimmer) (path : list string) : bool :=
  if (List.length path =? 0)%nat then false
  else existsb
         (fun rule =>
            if negb (List.length rule =? List.length path)%nat then false
            else rule_matches rule path)
         (blacklistParts t).

(** What the code puts in place of a removed value. *)
Definition removed (t : Trimmer) : Value :=
  if ReplaceWithMarker (cfg t) then VStr Marker else VNil.

(** [x != nil] on an [interface{}] *)
Definition not_nil (v : Value) : bool :=
  match v with VNil => false | _ => true end.

Fixpoint stripRecursive (t : Trimmer) (v : Value) (currentPath : list string)
  {struct v} : Value :=
  if matchesBlacklist t currentPath then removed t
  else
    match v with
    | VObj vv =>
        VObj (fold_left
                (fun out (kv : string * Value) =>
                   let newPath := (currentPath ++ [fst kv])%list in
                   let stripped := stripRecursive t (snd kv) newPath in
                   if not_nil stripped then map_set (fst kv) stripped out
                   else out)
                vv [])
    | VArr vv =>
        let out :=
          snd (fold_left
                 (fun (acc : Z * list Value) (item : Value) =>
                    let newPath := (currentPath ++ [Sprintf_d (fst acc)])%list in
                    let stripped := stripRecursive t item newPath in
                    (fst acc + 1,
                     if not_nil stripped then (snd acc ++ [stripped])%list
                     else snd acc))
                 vv (0, [])) in
        if (List.length out =? 0)%nat then VNil else VArr out
    | _ => v
    end.

Definition stripBlacklisted (t : Trimmer) (v : Value) : Value :=
  if (List.length (blacklistParts t) =? 0)%nat then v
  else stripRecursive t v [].

(** ** Field trimmer *)

(** The size test applied to every trimmed child: the estimate first, the
    exact encoding only when the estimate is over the limit. *)
Definition overFieldLimit (t : Trimmer) (trimmed : Value) : bool :=
  if estimateSize trimmed >? FieldLimit (cfg t)
  then len (Json.Marshal trimmed) >? FieldLimit (cfg t)
  else false.

Fixpoint trimFields (t : Trimmer) (v : Value) (depth : Z) {struct v} : Value :=
  if depth >? MaxDepth (cfg t) then removed t
  else
    match v with
    | VObj vv =>
        VObj (fold_left
                (fun out (kv : string * Value) =>
                   let trimmed := trimFields t (snd kv) (depth + 1) in
                   if not_nil trimmed then
                     if overFieldLimit t trimmed then
                       if ReplaceWithMarker (cfg t)
                       then map_set (fst kv) (VStr Marker) out
                       else out
                     else map_set (fst kv) trimmed out
                   else out)
                vv [])
    | VArr vv =>
        VArr (fold_left
                (fun out (item : Value) =>
                   let trimmed := trimFields t item (depth + 1) in
                   if not_nil trimmed then
                     if overFieldLimit t trimmed then
                       if ReplaceWithMarker (cfg t)
                       then (out ++ [VStr Marker])%list
                       else out
                     else (out ++ [trimmed])%list
                   else out)
                vv [])
    | VStr str =>
        if len str >? FieldLimit (cfg t) then
          let newLen := FieldLimit (cfg t) - 6 in
          if TruncateStrings (cfg t) && (newLen >? 0) && (len str >? newLen)
          then VStr (slice_to (Z.to_nat newLen) str ++ "...")
          else removed t
        else v
    | _ => v
    end.

(** ** Total enforcer *)

(** [fmt.Sscanf(s, "%d", &idx)].  [SkipSpace] passes over the runes of
    [isSpace], the white space of Unicode, and fails on a newline; one
    sign is accepted; then the longest run of decimal digits is read,
    which must not be empty, and [strconv.ParseInt] gives its value.
    What follows the digits is left unread.  A value outside the range
    of [int] is an error in Go; here it is returned as it is, and the
    test [idx < len(vv)] that follows rejects it just the same. *)

(** The size in bytes of the rune at the head of [s] when [isSpace]
    holds of it, [0] otherwise.  The table of [isSpace] is U+0009 to
    U+000D, U+0020, U+0085, U+00A0, U+1680, U+2000 to U+200A, U+2028,
    U+2029, U+202F, U+205F and U+3000; a rune is decoded from its one
    well-formed UTF-8 sequence only. *)
Definition space_size (s : string) : nat :=
  match s with
  | EmptyString => 0%nat
  | String c0 rest =>
      let b0 := N_of_ascii c0 in
      if (((9 <=? b0) && (b0 <=? 13)) || (b0 =? 32))%N then 1%nat
      else
        match rest with
        | EmptyString => 0%nat
        | String c1 rest1 =>
            let b1 := N_of_ascii c1 in
            if ((b0 =? 194) && ((b1 =? 133) || (b1 =? 160)))%N then 2%nat
            else
              match rest1 with
              | EmptyString => 0%nat
              | String c2 _ =>
                  let b2 := N_of_ascii c2 in
                  if ((b0 =? 225) && (b1 =? 154) && (b2 =? 128))%N then 3%nat
                  else if ((b0 =? 226) && (b1 =? 128)
                           && (((128 <=? b2) && (b2 <=? 138))
                               || (b2 =? 168) || (b2 =? 169) || (b2 =? 175)))%N
                  then 3%nat
                  else if ((b0 =? 226) && (b1 =? 129) && (b2 =? 159))%N then 3%nat
                  else if ((b0 =? 227) && (b1 =? 128) && (b2 =? 128))%N then 3%nat
                  else 0%nat
              end
        end
  end.

Definition is_digit (c : ascii) : bool :=
  let n := N_of_ascii c in ((48 <=? n) && (n <=? 57))%N.

(** The loop of [SkipSpace]; [skip] counts the bytes of a space still to
    be passed over. *)
Fixpoint skip_spaces (skip : nat) (s : string) : option string :=
  match s with
  | EmptyString => Some s
  | String c rest =>
      match skip with
      | S k => skip_spaces k rest
      | O =>
          if (N_of_ascii c =? 10)%N then None
          else match space_size s with
               | O => Some s
               | S k => skip_spaces k rest
               end
      end
  end.

(** [scanNumber]: the digits at the head of [s]. *)
Fixpoint take_number (s : string) : string :=
  match s with
  | EmptyString => EmptyString
  | String c rest =>
      if is_digit c then String c (take_number rest) else EmptyString
  end.

Definition Sscanf_d (s : string) : option Z :=
  match skip_spaces 0 s with
  | None => None
  | Some s1 =>
      let signed :=
        match s1 with
        | String c rest =>
            if Ascii.eqb c "-"%char then (true, rest)
            else if Ascii.eqb c "+"%char then (false, rest)
            else (false, s1)
        | EmptyString => (false, s1)
        end in
      match take_number (snd signed) with
      | EmptyString => None
      | tok =>
          match NilEmpty.uint_of_string tok with
          | None => None
          | Some d =>
              let n := Z.of_nat (Nat.of_uint d) in
              Some (if fst signed then - n else n)
          end
      end
  end.

(** [x != Marker] for an [interface{}] [x] is false only on the string
    [Marker] itself. *)
Definition is_Marker (v : Value) : bool :=
  match v with
  | VStr s => String.eqb s Marker
  | _ => false
  end.

(** [vv[idx] = x] *)
Fixpoint list_set (idx : nat) (x : Value) (vv : list Value) : list Value :=
  match vv, idx with
  | [], _ => []
  | _ :: vv', O => x :: vv'
  | y :: vv', S i => y :: list_set i x vv'
  end.

(** [copy(vv[idx:], vv[idx+1:]); vv = vv[:len(vv)-1]] *)
Definition remove_at (idx : nat) (vv : list Value) : list Value :=
  (firstn idx vv ++ skipn (S idx) vv)%list.

(** The [switch] of one turn of the loop of [enforceTotal]. *)
Definition applyRemoval (t : Trimmer) (v : Value) (toRemove : string) : Value :=
  match v with
  | VObj vv =>
      if negb (HasPrefix toRemove "idx:") then
        if ReplaceWithMarker (cfg t)
           && negb (match map_get toRemove vv with
                    | Some x => is_Marker x
                    | None => false
                    end)
        then VObj (map_set toRemove (VStr Marker) vv)
        else VObj (map_delete toRemove vv)
      else v
  | VArr vv =>
      if HasPrefix toRemove "idx:" then
        match Sscanf_d (slice_from 4 toRemove) with
        | Some idx =>
            if (idx >=? 0) && (idx <? Z.of_nat (List.length vv)) then
              if ReplaceWithMarker (cfg t)
                 && negb (is_Marker (nth (Z.to_nat idx) vv VNil))
              then VArr (list_set (Z.to_nat idx) (VStr Marker) vv)
              else VArr (remove_at (Z.to_nat idx) vv)
            else v
        | None => v
        end
      else v
  | _ => v
  end.

(** How a run of a function that loops can end: with a result, with a
    Go panic (a call through a nil strategy or hook), or not within the
    given number of turns. *)
Inductive Run (A : Type) : Type :=
| Done (a : A)
| Panic
| OutOfFuel.
Arguments Done {A} a.
Arguments Panic {A}.
Arguments OutOfFuel {A}.

(** [fuel] bounds the number of turns of the [for] loop. *)
Fixpoint enforceTotal (fuel : nat) (t : Trimmer) (v : Value) : Run Value :=
  match fuel with
  | O => OutOfFuel
  | S fuel' =>
      if len (Json.Marshal v) <=? TotalLimit (cfg t) then Done v
      else
        match Strategy (cfg t) with
        | None => Panic
        | Some s =>
            let toRemove := SelectNextToRemove s v in
            if String.eqb toRemove "" then Done v
            else enforceTotal fuel' t (applyRemoval t v toRemove)
        end
  end.

(** ** [Trim] *)

(** [decoded] is what [json.Unmarshal] made of the raw bytes, [None] when
    they are not JSON.  The result is the pair that [Trim] returns. *)
Definition Trim (fuel : nat) (t : Trimmer) (decoded : option Value) :
  Run (option string * option Error) :=
  match decoded with
  | None => Done (None, Some ErrUnmarshal)
  | Some v =>
      let v := stripBlacklisted t v in
      match PreTrim (hooks (cfg t)) with
      | None => Panic
      | Some pre =>
          let v := trimFields t (pre v) 1 in
          match enforceTotal fuel t v with
          | Done v =>
              match PostTrim (hooks (cfg t)) with
              | None => Panic
              | Some post =>
                  let out := Json.Marshal (post v None) in
                  if len out >? TotalLimit (cfg t)
                  then Done (None, Some ErrCannotTrim)
                  else Done (Some out, None)
              end
          | Panic => Panic
          | OutOfFuel => OutOfFuel
          end
      end
  end.

(** ** Definitions used to state the properties *)

(** A configuration with one field replaced. *)
Definition with_FieldLimit (n : Z) (c : Config) : Config :=
  mkConfig n (TotalLimit c) (Blacklist c) (Strategy c) (MaxDepth c)
    (TruncateStrings c) (ReplaceWithMarker c) (hooks c).

Definition with_TotalLimit (n : Z) (c : Config) : Config :=
  mkConfig (FieldLimit c) n (Blacklist c) (Strategy c) (MaxDepth c)
    (TruncateStrings c) (ReplaceWithMarker c) (hooks c).

Definition with_MaxDepth (n : Z) (c : Config) : Config :=
  mkConfig (FieldLimit c) (TotalLimit c) (Blacklist c) (Strategy c) n
    (TruncateStrings c) (ReplaceWithMarker c) (hooks c).

Definition with_Strategy (s : option TruncStrategy) (c : Config) : Config :=
  mkConfig (FieldLimit c) (TotalLimit c) (Blacklist c) s (MaxDepth c)
    (TruncateStrings c) (ReplaceWithMarker c) (hooks c).

Definition with_hooks (h : Hooks) (c : Config) : Config :=
  mkConfig (FieldLimit c) (TotalLimit c) (Blacklist c) (Strategy c) (MaxDepth c)
    (TruncateStrings c) (ReplaceWithMarker c) h.

(** The zero value of [Config], with a blacklist and the two flags. *)
Definition zeroConfig (bl : list string) (truncate marker : bool) : Config :=
  mkConfig 0 0 bl None 0 truncate marker (mkHooks None None).

(** [strings.Repeat] of one byte. *)
Fixpoint repeat_byte (c : ascii) (n : nat) : string :=
  match n with
  | O => EmptyString
  | S n' => String c (repeat_byte c n')
  end.

(** Is [v] what the trimmer leaves in place of a removed value? *)
Definition is_removed (t : Trimmer) (v : Value) : bool :=
  if ReplaceWithMarker (cfg t) then is_Marker v else negb (not_nil v).

(** No node of [v], seen as sitting at [depth], lies below [MaxDepth]
    unless it is the replacement of a removed value. *)
Fixpoint depth_respected (t : Trimmer) (v : Value) (depth : Z) : bool :=
  if depth >? MaxDepth (cfg t) then is_removed t v
  else
    match v with
    | VObj m => forallb (fun kv => depth_respected t (snd kv) (depth + 1)) m
    | VArr l => forallb (fun x => depth_respected t x (depth + 1)) l
    | _ => true
    end.


(** ** The loop bodies, named

    One turn of the loop of [stripRecursive] over the members of an object
    and over the elements of an array. *)
Definition strip_member (t : Trimmer) (currentPath : list string)
  (out : list (string * Value)) (kv : string * Value) : list (string * Value) :=
  let stripped := stripRecursive t (snd kv) (currentPath ++ [fst kv])%list in
  if not_nil stripped then map_set (fst kv) stripped out else out.

Definition strip_element (t : Trimmer) (currentPath : list string)
  (acc : Z * list Value) (item : Value) : Z * list Value :=
  let stripped :=
    stripRecursive t item (currentPath ++ [Sprintf_d (fst acc)])%list in
  (fst acc + 1, if not_nil stripped then (snd acc ++ [stripped])%list else snd acc).

(** One turn of the loops of [trimFields]. *)
Definition trim_member (t : Trimmer) (depth : Z)
  (out : list (string * Value)) (kv : string * Value) : list (string * Value) :=
  let trimmed := trimFields t (snd kv) (depth + 1) in
  if not_nil trimmed then
    if overFieldLimit t trimmed then
      if ReplaceWithMarker (cfg t) then map_set (fst kv) (VStr Marker) out else out
    else map_set (fst kv) trimmed out
  else out.

Definition trim_element (t : Trimmer) (depth : Z)
  (out : list Value) (item : Value) : list Value :=
  let trimmed := trimFields t item (depth + 1) in
  if not_nil trimmed then
    if overFieldLimit t trimmed then
      if ReplaceWithMarker (cfg t) then (out ++ [VStr Marker])%list else out
    else (out ++ [trimmed])%list
  else out.

(** ** What the field trimmer guarantees about sizes *)

(** Every string leaf of [v] is the marker or has at most [FieldLimit]
    bytes before encoding. *)
Fixpoint strings_within (t : Trimmer) (v : Value) : bool :=
  match v with
  | VStr s => String.eqb s Marker || (len s <=? FieldLimit (cfg t))
  | VObj m => forallb (fun kv => strings_within t (snd kv)) m
  | VArr l => forallb (strings_within t) l
  | _ => true
  end.

(** A member or element passed the size test of its container, or is the
    marker put in its place. *)
Definition child_checked (t : Trimmer) (x : Value) : bool :=
  is_Marker x || negb (overFieldLimit t x).

Fixpoint children_checked (t : Trimmer) (v : Value) : bool :=
  match v with
  | VObj m =>
      forallb (fun kv => child_checked t (snd kv) && children_checked t (snd kv)) m
  | VArr l => forallb (fun x => child_checked t x && children_checked t x) l
  | _ => true
  end.

(** Bool, Number and Null. *)
Definition is_plain_scalar (v : Value) : bool :=
  match v with
  | VNil | VBool _ | VNum _ => true
  | _ => false
  end.


(** ** Order of array elements *)

(** [kept_in_order R l l']: the list [l'] is made of the images under [R]
    of some of the elements of [l], in the order they have in [l]. *)
Inductive kept_in_order (R : Value -> Value -> Prop) :
  list Value -> list Value -> Prop :=
| kept_nil : kept_in_order R [] []
| kept_drop (x : Value) (l l' : list Value) :
    kept_in_order R l l' -> kept_in_order R (x :: l) l'
| kept_keep (x y : Value) (l l' : list Value) :
    R x y -> kept_in_order R l l' -> kept_in_order R (x :: l) (y :: l').

(** An element survives a turn of the enforcer as it is or as the marker. *)
Definition same_or_marker (x y : Value) : Prop := y = x \/ y = VStr Marker.

(** ** Progress of the total enforcer *)

(** The measure that every effective turn of the loop lowers: a member or
    element counts 2, and 1 once it is the marker. *)
Definition entry_weight (x : Value) : nat :=
  if is_Marker x then 1%nat else 2%nat.

Definition weight (v : Value) : nat :=
  match v with
  | VObj m => list_sum (map (fun kv => entry_weight (snd kv)) m)
  | VArr l => list_sum (map entry_weight l)
  | _ => 0%nat
  end.

(** The entry count of an object, the length of an array. *)
Definition entries (v : Value) : nat :=
  match v with
  | VObj m => List.length m
  | VArr l => List.length l
  | _ => 0%nat
  end.

(** No key of the root object starts with the prefix of index tokens. *)
Definition no_idx_key (v : Value) : bool :=
  match v with
  | VObj m => forallb (fun kv => negb (HasPrefix (fst kv) "idx:")) m
  | _ => true
  end.

(** The strategies of the package, as opposed to those of its users. *)
Fixpoint built_in (s : TruncStrategy) : bool :=
  match s with
  | RemoveLargest | FIFO => true
  | PrioritizeKeys _ Fallback =>
      match Fallback with
      | Some f => built_in f
      | None => true
      end
  | UserStrategy _ => false
  end.

(** A selector that answers with the empty token, with a key of the
    object, or with the token of an index of the array. *)
Definition names_a_child (select : Value -> string) : Prop :=
  (forall m, select (VObj m) = "" \/ In (select (VObj m)) (map fst m))
  /\ (forall l, select (VArr l) = ""
                \/ exists i, (i < List.length l)%nat
                             /\ select (VArr l) = "idx:" ++ itoa i)
  /\ (forall v, match v with
                | VObj _ | VArr _ => True
                | _ => select v = ""
                end).

(** ** Documents and configurations of the scenarios *)

(** [TestTrimBasic]: a short id and 2000 bytes of data, strings truncated. *)
Definition basicConfig : Config :=
  mkConfig 500 1024 [] None 0 true false (mkHooks None None).

Definition basicInput : Value :=
  VObj [("id", VStr "123"); ("data", VStr (repeat_byte "x" 2000))].


(** The wildcard scenario: two users with a password, and [meta.pass]. *)
Definition usersConfig : Config := zeroConfig ["users.*.pass"] false false.


Definition usersStripped : Value :=
  VObj [("users", VArr [VObj [("id", VNum "1")]; VObj [("id", VNum "2")]]);
        ("meta", VObj [("pass", VStr "no-match")])].

(** An object and an array that blacklisting empties. *)
Definition emptiedObjectInput : Value :=
  VObj [("a", VObj [("b", VNum "1")]); ("c", VNum "2")].

Definition emptiedArrayInput : Value :=
  VObj [("a", VArr [VNum "1"]); ("c", VNum "2")].

(** An object whose only key starts with the prefix of index tokens. *)
Definition idxKeyConfig : Config := with_TotalLimit 10 (zeroConfig [] false false).

Definition idxKeyInput : Value :=
  VObj [("idx:0", VStr (repeat_byte "x" 20))].

(** ** Replacing the value at a path *)




(** A string of six quotes under a [FieldLimit] of 10: 6 bytes raw, 8
    estimated, 14 encoded. *)
Definition quotesConfig : Config := with_FieldLimit 10 (zeroConfig [] false false).

Definition quotesInput : Value := VObj [("a", VStr (repeat_byte "034" 6))].



(** [TestEnforceTotalArrayOrder]: the strategy of the test names one fixed
    index as long as the array is long enough; three members of 100 bytes
    each, here told apart by their byte, under a [TotalLimit] of 250. *)
Definition MockStrategy (RemoveIdx : Z) : TruncStrategy :=
  UserStrategy
    (fun v =>
       match v with
       | VArr arr =>
           if Z.of_nat (List.length arr) >? RemoveIdx
           then "idx:" ++ Sprintf_d RemoveIdx
           else ""
       | _ => ""
       end).

Definition orderConfig : Config :=
  with_Strategy (Some (MockStrategy 1))
    (with_TotalLimit 250 (zeroConfig [] false false)).

Definition orderInput : list Value :=
  [VObj [("d", VStr (repeat_byte "a" 100))];
   VObj [("d", VStr (repeat_byte "b" 100))];
   VObj [("d", VStr (repeat_byte "c" 100))]].

Definition orderOutput : list Value :=
  [VObj [("d", VStr (repeat_byte "a" 100))];
   VObj [("d", VStr (repeat_byte "c" 100))]].

(** One string of 20 bytes in an array, markers on, a [TotalLimit] of 10. *)
Definition markerConfig : Config := with_TotalLimit 10 (zeroConfig [] false true).

Definition markerInput : Value := VArr [VStr (repeat_byte "x" 20)].

(** [TestErrCannotTrim]: a bare string of 50 bytes, a [TotalLimit] of 10. *)
Definition cannotTrimConfig : Config := with_TotalLimit 10 (zeroConfig [] false false).

Definition cannotTrimInput : Value := VStr (repeat_byte "x" 50).

(** ** Definitions for further properties *)

(** A rule segment fits a path segment: the wildcard, or the same string. *)
Definition segment_matches (part seg : string) : Prop :=
  part = "*" \/ part = seg.

(** Does the string hold a dot? *)
Fixpoint has_dot (s : string) : bool :=
  match s with
  | EmptyString => false
  | String c rest => Ascii.eqb c "."%char || has_dot rest
  end.

(** No key occurs twice. *)
Fixpoint unique_keys (ks : list string) : bool :=
  match ks with
  | [] => true
  | k :: ks' => negb (existsb (String.eqb k) ks') && unique_keys ks'
  end.

(** A document in which the stripper finds nothing to drop by itself: no
    null member or element, no empty array, no key twice. *)
Fixpoint strip_keeps (v : Value) : bool :=
  match v with
  | VObj m =>
      unique_keys (map fst m)
      && forallb (fun kv => not_nil (snd kv) && strip_keeps (snd kv)) m
  | VArr l =>
      negb (List.length l =? 0)%nat
      && forallb (fun x => not_nil x && strip_keeps x) l
  | _ => true
  end.

(** No path of the document [v], itself at [pre], matches a rule. *)
Fixpoint paths_unmatched (t : Trimmer) (pre : list string) (v : Value) : bool :=
  negb (matchesBlacklist t pre)
  && match v with
     | VObj m =>
         forallb (fun kv => paths_unmatched t (pre ++ [fst kv])%list (snd kv)) m
     | VArr l =>
         (fix elements (i : Z) (l : list Value) : bool :=
            match l with
            | [] => true
            | x :: l' =>
                paths_unmatched t (pre ++ [Sprintf_d i])%list x
                && elements (i + 1) l'
            end) 0 l
     | _ => true
     end.

(** A document that the field trimmer has no reason to change at [depth]:
    within [MaxDepth], strings within [FieldLimit], every child non-null
    and through the size test, no key twice. *)
Fixpoint fits (t : Trimmer) (v : Value) (depth : Z) : bool :=
  (depth <=? MaxDepth (cfg t))
  && match v with
     | VStr s => len s <=? FieldLimit (cfg t)
     | VObj m =>
         unique_keys (map fst m)
         && forallb
              (fun kv =>
                 not_nil (snd kv) && negb (overFieldLimit t (snd kv))
                 && fits t (snd kv) (depth + 1))
              m
     | VArr l =>
         forallb
           (fun x =>
              not_nil x && negb (overFieldLimit t x) && fits t x (depth + 1))
           l
     | _ => true
     end.

(** No member of an object and no element of an array is nil, at any
    level. *)
Fixpoint no_nil_members (v : Value) : bool :=
  match v with
  | VObj m => forallb (fun kv => not_nil (snd kv) && no_nil_members (snd kv)) m
  | VArr l => forallb (fun x => not_nil x && no_nil_members x) l
  | _ => true
  end.

(** Neither an object nor an array. *)
Definition is_scalar (v : Value) : bool :=
  match v with
  | VObj _ | VArr _ => false
  | _ => true
  end.

(** A configuration with the strategy of the package or none, and no hooks. *)
Definition plain_config (c : Config) : bool :=
  match Strategy c with
  | None => true
  | Some s => built_in s
  end
  && match PreTrim (hooks c), PostTrim (hooks c) with
     | None, None => true
     | _, _ => false
     end.

(** [TestReplaceWithMarker]: a short member and one of 200 bytes, markers
    on, a [TotalLimit] of 50. *)
Definition replaceConfig : Config := with_TotalLimit 50 (zeroConfig [] false true).

Definition replaceInput : list (string * Value) :=
  [("keep", VStr "me"); ("drop", VStr (repeat_byte "x" 200))].

(** Every string that is a member of an object or an element of an array,
    at any level, is the marker or fits [FieldLimit] with its two quotes. *)
Fixpoint string_members_within (t : Trimmer) (v : Value) : bool :=
  let member (x : Value) : bool :=
    match x with
    | VStr s => String.eqb s Marker || (len s + 2 <=? FieldLimit (cfg t))
    | _ => true
    end in
  match v with
  | VObj m =>
      forallb (fun kv => member (snd kv) && string_members_within t (snd kv)) m
  | VArr l => forallb (fun x => member x && string_members_within t x) l
  | _ => true
  end.

(** [FIFO] on an array of three strings of 10 bytes, a [TotalLimit] of 20. *)
Definition fifoConfig : Config :=
  with_Strategy (Some FIFO) (with_TotalLimit 20 (zeroConfig [] false false)).

Definition fifoInput : list Value :=
  [VStr (repeat_byte "a" 10); VStr (repeat_byte "b" 10); VStr (repeat_byte "c" 10)].

(** ** Bytes and characters *)










(** ** Blacklisted paths *)







(** * Properties *)

(** Induction over the tree, with the hypothesis for every child. *)
Lemma Value_tree_ind (P : Value -> Prop)
  (HNil : P VNil)
  (HBool : forall b, P (VBool b))
  (HNum : forall r, P (VNum r))
  (HStr : forall s, P (VStr s))
  (HObj : forall m, Forall (fun kv => P (snd kv)) m -> P (VObj m))
  (HArr : forall l, Forall P l -> P (VArr l)) :
  forall v, P v.
Proof.
  fix IH 1. intros [ | b | r | s | m | l ].
  - exact HNil.
  - apply HBool.
  - apply HNum.
  - apply HStr.
  - apply HObj. induction m as [ | [k x] m IHm ]; constructor.
    + apply IH.
    + exact IHm.
  - apply HArr. induction l as [ | x l IHl ]; constructor.
    + apply IH.
    + exact IHl.
Qed.

(** ** Properties of [New] *)

(** C10.  [New] replaces every zero-valued field by its default: a
    [FieldLimit] of 0 gives the trimmer of 500, a [TotalLimit] of 0 that of
    1024, a [MaxDepth] of 0 that of 10, a nil strategy that of
    [RemoveLargest], nil hooks those of the identity; so [Trim] under
    [MaxDepth: 0] is [Trim] under [MaxDepth: 10]. *)
Theorem New_fills_defaults :
  forall c : Config,
    New (with_FieldLimit 0 c) = New (with_FieldLimit 500 c)
    /\ New (with_TotalLimit 0 c) = New (with_TotalLimit 1024 c)
    /\ New (with_MaxDepth 0 c) = New (with_MaxDepth 10 c)
    /\ New (with_Strategy None c) = New (with_Strategy (Some RemoveLargest) c)
    /\ New (with_hooks (mkHooks None None) c)
       = New (with_hooks (mkHooks (Some (fun v => v)) (Some (fun v _ => v))) c)
    /\ MaxDepth (cfg (New (with_MaxDepth 0 c))) = 10
    /\ FieldLimit (cfg (New (with_FieldLimit 0 c))) = 500
    /\ TotalLimit (cfg (New (with_TotalLimit 0 c))) = 1024
    /\ (forall fuel decoded,
          Trim fuel (New (with_MaxDepth 0 c)) decoded
          = Trim fuel (New (with_MaxDepth 10 c)) decoded).
Proof.
  intros c.
  assert (HD : New (with_MaxDepth 0 c) = New (with_MaxDepth 10 c)) by reflexivity.
  repeat (split; [ reflexivity | ]).
  intros fuel decoded. rewrite HD. reflexivity.
Qed.

(** ** The depth bound of the field trimmer *)

Lemma trimFields_cut (t : Trimmer) (v : Value) (depth : Z) :
  depth > MaxDepth (cfg t) -> trimFields t v depth = removed t.
Proof.
  intros H. apply Z.gtb_gt in H.
  destruct v; simpl; rewrite H; reflexivity.
Qed.

Lemma is_removed_removed (t : Trimmer) : is_removed t (removed t) = true.
Proof.
  unfold is_removed, removed. destruct (ReplaceWithMarker (cfg t)); reflexivity.
Qed.

Lemma forallb_map_set {A : Type} (P : string * A -> bool) k x m :
  P (k, x) = true -> forallb P m = true -> forallb P (map_set k x m) = true.
Proof.
  intros Hx. induction m as [ | [k' x'] m IH ]; simpl; intros Hm.
  - rewrite Hx. reflexivity.
  - apply andb_true_iff in Hm. destruct Hm as [H1 H2].
    destruct (String.eqb k k'); simpl.
    + rewrite Hx, H2. reflexivity.
    + rewrite H1, (IH H2). reflexivity.
Qed.

Lemma forallb_snoc {A : Type} (P : A -> bool) l x :
  forallb P l = true -> P x = true -> forallb P (l ++ [x])%list = true.
Proof.
  intros Hl Hx. rewrite forallb_app, Hl. simpl. rewrite Hx. reflexivity.
Qed.

(** A loop that only ever adds members satisfying [P] builds a map whose
    members all satisfy [P]. *)
Lemma fold_left_forallb {A B : Type} (P : B -> bool) (step : list B -> A -> list B)
  (l : list A) :
  Forall (fun a => forall out, forallb P out = true -> forallb P (step out a) = true) l ->
  forall out, forallb P out = true -> forallb P (fold_left step l out) = true.
Proof.
  induction 1 as [ | a l Ha _ IH ]; simpl; intros out Hout.
  - exact Hout.
  - apply IH, Ha, Hout.
Qed.

Lemma depth_respected_Marker (t : Trimmer) (depth : Z) :
  ReplaceWithMarker (cfg t) = true ->
  depth_respected t (VStr Marker) depth = true.
Proof.
  intros HM. simpl. unfold is_removed. rewrite HM.
  destruct (depth >? MaxDepth (cfg t)); reflexivity.
Qed.

Lemma depth_respected_cut (t : Trimmer) (v : Value) (depth : Z) :
  (depth >? MaxDepth (cfg t)) = true ->
  depth_respected t v depth = is_removed t v.
Proof.
  intros E. destruct v; simpl; rewrite E; reflexivity.
Qed.

Lemma trimFields_depth_respected (t : Trimmer) :
  forall v depth, depth_respected t (trimFields t v depth) depth = true.
Proof.
  intros v depth. destruct (depth >? MaxDepth (cfg t)) eqn:E.
  { rewrite trimFields_cut by (apply Z.gtb_gt; exact E).
    rewrite depth_respected_cut by exact E. apply is_removed_removed. }
  revert depth E.
  induction v as [ | b | r | s | m IH | l IH ] using Value_tree_ind;
    intros depth E; simpl; rewrite E.
  - simpl. rewrite E. reflexivity.
  - simpl. rewrite E. reflexivity.
  - simpl. rewrite E. reflexivity.
  - destruct (len s >? FieldLimit (cfg t)).
    + destruct (TruncateStrings (cfg t) && (FieldLimit (cfg t) - 6 >? 0)
                && (len s >? FieldLimit (cfg t) - 6)).
      * simpl. rewrite E. reflexivity.
      * unfold removed.
        destruct (ReplaceWithMarker (cfg t)); simpl; rewrite E; reflexivity.
    + simpl. rewrite E. reflexivity.
  - simpl. rewrite E.
    apply fold_left_forallb; [ | reflexivity ].
    eapply Forall_impl; [ | exact IH ].
    intros [k x] Hx out Hout. simpl in *.
    assert (Hchild : depth_respected t (trimFields t x (depth + 1)) (depth + 1) = true).
    { destruct (depth + 1 >? MaxDepth (cfg t)) eqn:E1.
      - rewrite trimFields_cut by (apply Z.gtb_gt; exact E1).
        rewrite depth_respected_cut by exact E1. apply is_removed_removed.
      - apply Hx, E1. }
    destruct (not_nil (trimFields t x (depth + 1))); [ | exact Hout ].
    destruct (overFieldLimit t (trimFields t x (depth + 1))).
    + destruct (ReplaceWithMarker (cfg t)) eqn:HM; [ | exact Hout ].
      apply forallb_map_set; [ | exact Hout ].
      apply depth_respected_Marker, HM.
    + apply forallb_map_set; [ exact Hchild | exact Hout ].
  - simpl. rewrite E.
    apply fold_left_forallb; [ | reflexivity ].
    eapply Forall_impl; [ | exact IH ].
    intros x Hx out Hout. simpl in *.
    assert (Hchild : depth_respected t (trimFields t x (depth + 1)) (depth + 1) = true).
    { destruct (depth + 1 >? MaxDepth (cfg t)) eqn:E1.
      - rewrite trimFields_cut by (apply Z.gtb_gt; exact E1).
        rewrite depth_respected_cut by exact E1. apply is_removed_removed.
      - apply Hx, E1. }
    destruct (not_nil (trimFields t x (depth + 1))); [ | exact Hout ].
    destruct (overFieldLimit t (trimFields t x (depth + 1))).
    + destruct (ReplaceWithMarker (cfg t)) eqn:HM; [ | exact Hout ].
      apply forallb_snoc; [ exact Hout | ].
      apply depth_respected_Marker, HM.
    + apply forallb_snoc; [ exact Hout | exact Hchild ].
Qed.

(** C6.  A value met at a depth greater than [MaxDepth] is collapsed on
    entry, whatever it is: [trimFields] returns the marker when
    [ReplaceWithMarker] is set and nil (absent) otherwise, without looking
    at the value; and in the result of the trimmer no node lies deeper than
    [MaxDepth] except such a replacement. *)
Theorem depth_bound_checked_on_entry (t : Trimmer) (v : Value) (depth : Z) :
  depth > MaxDepth (cfg t) ->
  trimFields t v depth
  = (if ReplaceWithMarker (cfg t) then VStr Marker else VNil)
  /\ (forall w d, depth_respected t (trimFields t w d) d = true).
Proof.
  intros H. split.
  - apply trimFields_cut, H.
  - apply trimFields_depth_respected.
Qed.

Lemma depth_bound_checked_on_entry_witness :
  trimFields (New (with_MaxDepth 2 basicConfig)) basicInput 3 = VNil
  /\ (forall w d,
        depth_respected (New (with_MaxDepth 2 basicConfig))
          (trimFields (New (with_MaxDepth 2 basicConfig)) w d) d = true).
Proof.
  apply (depth_bound_checked_on_entry
           (New (with_MaxDepth 2 basicConfig)) basicInput 3).
  reflexivity.
Defined.

(** ** Long strings *)

Lemma length_slice_to (n : nat) (s : string) :
  (n <= String.length s)%nat -> String.length (slice_to n s) = n.
Proof.
  unfold slice_to. revert s.
  induction n as [ | n IH ]; intros s H.
  - destruct s; reflexivity.
  - destruct s as [ | c s ]; simpl in *.
    + lia.
    + rewrite IH by lia. reflexivity.
Qed.







(** ** Containers emptied by the blacklist *)

(** C4, at the input where the code departs from it.  With the rule
    [a.b], the object under [a] loses its only member and stays in the
    result as an empty object; with the rule [a.0] the array under [a]
    loses its only element and is removed with its key. *)
Theorem emptied_object_survives_stripping :
  stripBlacklisted (New (zeroConfig ["a.b"] false false)) emptiedObjectInput
  = VObj [("a", VObj []); ("c", VNum "2")]
  /\ Trim 1 (New (zeroConfig ["a.b"] false false)) (Some emptiedObjectInput)
     = Done (Some (Json.Marshal (VObj [("a", VObj []); ("c", VNum "2")])), None)
  /\ stripBlacklisted (New (zeroConfig ["a.0"] false false)) emptiedArrayInput
     = VObj [("c", VNum "2")].
Proof.
  repeat split; vm_compute; reflexivity.
Qed.

(** ** The loop of the total enforcer *)

Lemma enforceTotal_S (fuel : nat) (t : Trimmer) (v : Value) :
  enforceTotal (S fuel) t v
  = if len (Json.Marshal v) <=? TotalLimit (cfg t) then Done v
    else match Strategy (cfg t) with
         | None => Panic
         | Some s =>
             if String.eqb (SelectNextToRemove s v) "" then Done v
             else enforceTotal fuel t (applyRemoval t v (SelectNextToRemove s v))
         end.
Proof.
  reflexivity.
Qed.

Lemma enforceTotal_turn (fuel : nat) (t : Trimmer) (v : Value) (s : TruncStrategy) :
  len (Json.Marshal v) > TotalLimit (cfg t) ->
  Strategy (cfg t) = Some s ->
  String.eqb (SelectNextToRemove s v) "" = false ->
  enforceTotal (S fuel) t v
  = enforceTotal fuel t (applyRemoval t v (SelectNextToRemove s v)).
Proof.
  intros Hover Hs Htok. simpl.
  assert (E : (len (Json.Marshal v) <=? TotalLimit (cfg t)) = false).
  { apply Z.leb_gt. lia. }
  rewrite E, Hs, Htok. reflexivity.
Qed.

(** A turn that leaves the value as it was is repeated for ever. *)
Lemma enforceTotal_stuck (t : Trimmer) (v : Value) (s : TruncStrategy) :
  len (Json.Marshal v) > TotalLimit (cfg t) ->
  Strategy (cfg t) = Some s ->
  String.eqb (SelectNextToRemove s v) "" = false ->
  applyRemoval t v (SelectNextToRemove s v) = v ->
  forall fuel, enforceTotal fuel t v = OutOfFuel.
Proof.
  intros Hover Hs Htok Hsame fuel.
  induction fuel as [ | fuel IH ].
  - reflexivity.
  - rewrite (enforceTotal_turn fuel t v s Hover Hs Htok), Hsame. exact IH.
Qed.

(** C1, at the input where the code departs from it.  The object has one
    member, of 20 bytes, under the key [idx:0], and [TotalLimit] is 10.
    [RemoveLargest] names that key; the enforcer takes a token that starts
    with [idx:] for an array index, removes nothing from the object and
    asks again: [Trim] returns neither an output nor an error, whatever
    the number of turns granted. *)
Theorem Trim_never_returns_on_idx_key :
  forall fuel : nat, Trim fuel (New idxKeyConfig) (Some idxKeyInput) = OutOfFuel.
Proof.
  intros fuel.
  assert (H : forall n, enforceTotal n (New idxKeyConfig) idxKeyInput = OutOfFuel).
  { apply (enforceTotal_stuck (New idxKeyConfig) idxKeyInput RemoveLargest).
    - vm_compute. reflexivity.
    - reflexivity.
    - vm_compute. reflexivity.
    - vm_compute. reflexivity. }
  unfold Trim.
  change (PreTrim (hooks (cfg (New idxKeyConfig)))) with (Some (fun v : Value => v)).
  cbv beta iota.
  replace (trimFields (New idxKeyConfig) (stripBlacklisted (New idxKeyConfig) idxKeyInput) 1)
    with idxKeyInput by (vm_compute; reflexivity).
  rewrite H. reflexivity.
Qed.

(** X1.  Whatever [Trim] returns is an output whose length is within
    [TotalLimit], with no error, or an error with no output: it never
    returns an oversized output. *)
Theorem Trim_result_within_limit (fuel : nat) (t : Trimmer) (decoded : option Value)
  (out : option string) (err : option Error) :
  Trim fuel t decoded = Done (out, err) ->
  (exists o, out = Some o /\ err = None /\ len o <= TotalLimit (cfg t))
  \/ (out = None /\ (err = Some ErrCannotTrim \/ err = Some ErrUnmarshal)).
Proof.
  unfold Trim. destruct decoded as [ v | ].
  - destruct (PreTrim (hooks (cfg t))) as [ pre | ]; [ | discriminate ].
    destruct (enforceTotal fuel t _) as [ v' | | ]; try discriminate.
    destruct (PostTrim (hooks (cfg t))) as [ post | ]; [ | discriminate ].
    destruct (len (Json.Marshal (post v' None)) >? TotalLimit (cfg t)) eqn:E;
      intros H; inversion H; subst.
    + right. auto.
    + left. eexists. repeat split.
      destruct (Z.gtb_spec (len (Json.Marshal (post v' None))) (TotalLimit (cfg t)));
        [ discriminate | lia ].
  - intros H. inversion H. right. auto.
Qed.

Lemma Trim_result_within_limit_witness :
  (exists o, @None string = Some o /\ Some ErrCannotTrim = None
             /\ len o <= TotalLimit (cfg (New cannotTrimConfig)))
  \/ (@None string = None
      /\ (Some ErrCannotTrim = Some ErrCannotTrim
          \/ Some ErrCannotTrim = Some ErrUnmarshal)).
Proof.
  apply (Trim_result_within_limit 1 (New cannotTrimConfig) (Some cannotTrimInput)).
  vm_compute. reflexivity.
Defined.

(** ** Blacklisted paths *)

Lemma stripRecursive_matched (t : Trimmer) (v : Value) (path : list string) :
  matchesBlacklist t path = true -> stripRecursive t v path = removed t.
Proof.
  intros H. destruct v; simpl; rewrite H; reflexivity.
Qed.

Lemma stripRecursive_VObj (t : Trimmer) (m : list (string * Value)) (path : list string) :
  matchesBlacklist t path = false ->
  stripRecursive t (VObj m) path = VObj (fold_left (strip_member t path) m []).
Proof.
  intros H. simpl. rewrite H. reflexivity.
Qed.

Lemma stripRecursive_VArr (t : Trimmer) (l : list Value) (path : list string) :
  matchesBlacklist t path = false ->
  stripRecursive t (VArr l) path
  = (let out := snd (fold_left (strip_element t path) l (0, [])) in
     if (List.length out =? 0)%nat then VNil else VArr out).
Proof.
  intros H. simpl. rewrite H. reflexivity.
Qed.

Section Noninterference.
Variable t : Trimmer.
Variables x y : Value.



End Noninterference.

Lemma In_map_set {A : Type} (k k2 : string) (x s : A) (out : list (string * A)) :
  In (k, x) (map_set k2 s out) -> (k = k2 /\ x = s) \/ In (k, x) out.
Proof.
  induction out as [ | [k' x'] out IH ]; simpl; intros H.
  - destruct H as [ H | [] ]. inversion H. left. split; reflexivity.
  - destruct (String.eqb k2 k') eqn:E; simpl in H.
    + destruct H as [ H | H ].
      * inversion H. left. split; reflexivity.
      * right. right. exact H.
    + destruct H as [ H | H ].
      * right. left. exact H.
      * destruct (IH H) as [ L | R ]; [ left; exact L | right; right; exact R ].
Qed.


(** ** Sizes after the field trimmer *)

Lemma trimFields_VObj (t : Trimmer) (m : list (string * Value)) (depth : Z) :
  (depth >? MaxDepth (cfg t)) = false ->
  trimFields t (VObj m) depth = VObj (fold_left (trim_member t depth) m []).
Proof.
  intros H. simpl. rewrite H. reflexivity.
Qed.

Lemma trimFields_VArr (t : Trimmer) (l : list Value) (depth : Z) :
  (depth >? MaxDepth (cfg t)) = false ->
  trimFields t (VArr l) depth = VArr (fold_left (trim_element t depth) l []).
Proof.
  intros H. simpl. rewrite H. reflexivity.
Qed.

Lemma length_append (a b : string) :
  String.length (a ++ b) = (String.length a + String.length b)%nat.
Proof.
  induction a as [ | c a IH ]; simpl; [ reflexivity | rewrite IH; reflexivity ].
Qed.

(** The three shapes of what the trimmer makes of a string. *)
Lemma trimFields_VStr_cases (t : Trimmer) (s : string) (depth : Z) :
  trimFields t (VStr s) depth = removed t
  \/ (trimFields t (VStr s) depth = VStr s /\ len s <= FieldLimit (cfg t))
  \/ (exists s', trimFields t (VStr s) depth = VStr s'
                 /\ len s' = FieldLimit (cfg t) - 3).
Proof.
  simpl. destruct (depth >? MaxDepth (cfg t)); [ left; reflexivity | ].
  destruct (Z.gtb_spec (len s) (FieldLimit (cfg t))) as [ Hlong | Hshort ].
  - destruct (TruncateStrings (cfg t)); simpl; [ | left; reflexivity ].
    destruct (Z.gtb_spec (FieldLimit (cfg t) - 6) 0) as [ Hpos | ];
      simpl; [ | left; reflexivity ].
    destruct (Z.gtb_spec (len s) (FieldLimit (cfg t) - 6)) as [ Hs | ];
      [ | left; reflexivity ].
    right. right. eexists. split; [ reflexivity | ].
    unfold len in *. rewrite length_append, length_slice_to by lia.
    simpl. lia.
  - right. left. split; [ reflexivity | lia ].
Qed.

Lemma strings_within_removed (t : Trimmer) : strings_within t (removed t) = true.
Proof.
  unfold removed. destruct (ReplaceWithMarker (cfg t)); reflexivity.
Qed.

Lemma children_checked_removed (t : Trimmer) : children_checked t (removed t) = true.
Proof.
  unfold removed. destruct (ReplaceWithMarker (cfg t)); reflexivity.
Qed.

Lemma trimFields_strings_within (t : Trimmer) :
  forall v depth, strings_within t (trimFields t v depth) = true.
Proof.
  induction v as [ | b | r | s | m IH | l IH ] using Value_tree_ind; intros depth.
  - simpl. destruct (depth >? MaxDepth (cfg t));
      [ apply strings_within_removed | reflexivity ].
  - simpl. destruct (depth >? MaxDepth (cfg t));
      [ apply strings_within_removed | reflexivity ].
  - simpl. destruct (depth >? MaxDepth (cfg t));
      [ apply strings_within_removed | reflexivity ].
  - destruct (trimFields_VStr_cases t s depth) as [ H | [ [H L] | [s' [H L]] ] ];
      rewrite H.
    + apply strings_within_removed.
    + simpl. apply orb_true_iff. right. apply Z.leb_le. exact L.
    + simpl. apply orb_true_iff. right. apply Z.leb_le. lia.
  - destruct (depth >? MaxDepth (cfg t)) eqn:E.
    { rewrite trimFields_cut by (apply Z.gtb_gt; exact E).
      apply strings_within_removed. }
    rewrite trimFields_VObj by exact E. simpl.
    apply fold_left_forallb; [ | reflexivity ].
    eapply Forall_impl; [ | exact IH ].
    intros [k x] Hx out Hout. unfold trim_member. simpl in *.
    destruct (not_nil (trimFields t x (depth + 1))); [ | exact Hout ].
    destruct (overFieldLimit t (trimFields t x (depth + 1))).
    + destruct (ReplaceWithMarker (cfg t)); [ | exact Hout ].
      apply forallb_map_set; [ reflexivity | exact Hout ].
    + apply forallb_map_set; [ apply Hx | exact Hout ].
  - destruct (depth >? MaxDepth (cfg t)) eqn:E.
    { rewrite trimFields_cut by (apply Z.gtb_gt; exact E).
      apply strings_within_removed. }
    rewrite trimFields_VArr by exact E. simpl.
    apply fold_left_forallb; [ | reflexivity ].
    eapply Forall_impl; [ | exact IH ].
    intros x Hx out Hout. unfold trim_element.
    destruct (not_nil (trimFields t x (depth + 1))); [ | exact Hout ].
    destruct (overFieldLimit t (trimFields t x (depth + 1))).
    + destruct (ReplaceWithMarker (cfg t)); [ | exact Hout ].
      apply forallb_snoc; [ exact Hout | reflexivity ].
    + apply forallb_snoc; [ exact Hout | apply Hx ].
Qed.

Lemma trimFields_children_checked (t : Trimmer) :
  forall v depth, children_checked t (trimFields t v depth) = true.
Proof.
  induction v as [ | b | r | s | m IH | l IH ] using Value_tree_ind; intros depth.
  - simpl. destruct (depth >? MaxDepth (cfg t));
      [ apply children_checked_removed | reflexivity ].
  - simpl. destruct (depth >? MaxDepth (cfg t));
      [ apply children_checked_removed | reflexivity ].
  - simpl. destruct (depth >? MaxDepth (cfg t));
      [ apply children_checked_removed | reflexivity ].
  - destruct (trimFields_VStr_cases t s depth) as [ H | [ [H L] | [s' [H L]] ] ];
      rewrite H; [ apply children_checked_removed | reflexivity | reflexivity ].
  - destruct (depth >? MaxDepth (cfg t)) eqn:E.
    { rewrite trimFields_cut by (apply Z.gtb_gt; exact E).
      apply children_checked_removed. }
    rewrite trimFields_VObj by exact E. simpl.
    apply fold_left_forallb; [ | reflexivity ].
    eapply Forall_impl; [ | exact IH ].
    intros [k x] Hx out Hout. unfold trim_member. simpl in *.
    destruct (not_nil (trimFields t x (depth + 1))); [ | exact Hout ].
    destruct (overFieldLimit t (trimFields t x (depth + 1))) eqn:O.
    + destruct (ReplaceWithMarker (cfg t)); [ | exact Hout ].
      apply forallb_map_set; [ reflexivity | exact Hout ].
    + apply forallb_map_set; [ | exact Hout ]. simpl.
      unfold child_checked. rewrite O, Hx, orb_true_r. reflexivity.
  - destruct (depth >? MaxDepth (cfg t)) eqn:E.
    { rewrite trimFields_cut by (apply Z.gtb_gt; exact E).
      apply children_checked_removed. }
    rewrite trimFields_VArr by exact E. simpl.
    apply fold_left_forallb; [ | reflexivity ].
    eapply Forall_impl; [ | exact IH ].
    intros x Hx out Hout. unfold trim_element.
    destruct (not_nil (trimFields t x (depth + 1))); [ | exact Hout ].
    destruct (overFieldLimit t (trimFields t x (depth + 1))) eqn:O.
    + destruct (ReplaceWithMarker (cfg t)); [ | exact Hout ].
      apply forallb_snoc; [ exact Hout | reflexivity ].
    + apply forallb_snoc; [ exact Hout | ].
      unfold child_checked. rewrite O, Hx, orb_true_r. reflexivity.
Qed.

(** The size test in words: a checked child is the marker, or its estimate
    is within the limit, or its exact encoding is. *)
Lemma child_checked_spec (t : Trimmer) (x : Value) :
  child_checked t x = true <->
  is_Marker x = true
  \/ estimateSize x <= FieldLimit (cfg t)
  \/ len (Json.Marshal x) <= FieldLimit (cfg t).
Proof.
  unfold child_checked, overFieldLimit. rewrite orb_true_iff.
  destruct (Z.gtb_spec (estimateSize x) (FieldLimit (cfg t)));
    destruct (Z.gtb_spec (len (Json.Marshal x)) (FieldLimit (cfg t)));
    simpl; intuition (try discriminate; try lia).
Qed.

(** C3, as stated, fails: under a [FieldLimit] of 10 the member [a], a
    string of six quotes, is kept by the trimmer and by [Trim] although its
    encoding has 14 bytes; the raw length 6 and the estimate 8 are both
    within the limit, so the exact size is never measured.  A bare string
    of 9 bytes is kept likewise with an encoding of 11 bytes. *)
Lemma escaped_string_exceeds_FieldLimit :
  trimFields (New quotesConfig) quotesInput 1 = quotesInput
  /\ Trim 1 (New quotesConfig) (Some quotesInput)
     = Done (Some (Json.Marshal quotesInput), None)
  /\ len (Json.Marshal (VStr (repeat_byte "034" 6))) = 14
  /\ FieldLimit (cfg (New quotesConfig)) = 10
  /\ estimateSize (VStr (repeat_byte "034" 6)) = 8
  /\ is_Marker (VStr (repeat_byte "034" 6)) = false
  /\ trimFields (New quotesConfig) (VStr (repeat_byte "x" 9)) 1
     = VStr (repeat_byte "x" 9)
  /\ len (Json.Marshal (VStr (repeat_byte "x" 9))) = 11.
Proof.
  repeat split; vm_compute; reflexivity.
Qed.

(** C3, amended.  After the field trimmer every string leaf is the marker
    or has a raw length of at most [FieldLimit] bytes, and every member of
    an object and element of an array is the marker or passed the size
    test of its container: its estimate, or else its exact encoding, is
    within [FieldLimit]. *)
Theorem trimmed_strings_within_FieldLimit :
  forall (t : Trimmer) (v : Value) (depth : Z),
    strings_within t (trimFields t v depth) = true
    /\ children_checked t (trimFields t v depth) = true.
Proof.
  intros t v depth. split.
  - apply trimFields_strings_within.
  - apply trimFields_children_checked.
Qed.

(** ** Bool, Number and Null in the field trimmer *)

Lemma trimFields_plain_scalar (t : Trimmer) (v : Value) (depth : Z) :
  depth <= MaxDepth (cfg t) ->
  is_plain_scalar v = true ->
  trimFields t v depth = v.
Proof.
  intros Hd Hv.
  assert (E : (depth >? MaxDepth (cfg t)) = false).
  { destruct (Z.gtb_spec depth (MaxDepth (cfg t))); [ lia | reflexivity ]. }
  destruct v; try discriminate; simpl; rewrite E; reflexivity.
Qed.










(** A member that is JSON null is nil, which is also what the loop takes
    for "removed": it is left out of the result. *)
Lemma null_member_is_left_out :
  trimFields (New (zeroConfig [] false false))
    (VObj [("a", VNil); ("b", VNum "1")]) 1
  = VObj [("b", VNum "1")]
  /\ trimFields (New (zeroConfig [] false false)) (VArr [VNil; VNum "1"]) 1
     = VArr [VNum "1"]
  /\ trimFields (New (zeroConfig [] false false)) VNil 1 = VNil.
Proof.
  repeat split; vm_compute; reflexivity.
Qed.



(** ** Order of array elements *)

Lemma kept_refl (R : Value -> Value -> Prop) :
  (forall x, R x x) -> forall l, kept_in_order R l l.
Proof.
  intros HR. induction l as [ | x l IH ].
  - apply kept_nil.
  - apply kept_keep; [ apply HR | exact IH ].
Qed.

Lemma kept_app (R : Value -> Value -> Prop) (l1 l2 o1 o2 : list Value) :
  kept_in_order R l1 o1 -> kept_in_order R l2 o2 ->
  kept_in_order R (l1 ++ l2) (o1 ++ o2).
Proof.
  intros H1 H2. induction H1; simpl.
  - exact H2.
  - apply kept_drop. assumption.
  - apply kept_keep; assumption.
Qed.

Lemma kept_trans :
  forall l1 l2, kept_in_order same_or_marker l1 l2 ->
  forall l3, kept_in_order same_or_marker l2 l3 ->
  kept_in_order same_or_marker l1 l3.
Proof.
  induction 1 as [ | x l l' H IH | x y l l' HR H IH ]; intros l3 H3.
  - exact H3.
  - apply kept_drop, IH, H3.
  - inversion H3 as [ | ? ? ? H3' | ? z ? l3' HR' H3' ]; subst.
    + apply kept_drop, IH, H3'.
    + apply kept_keep; [ | apply IH, H3' ].
      unfold same_or_marker in *.
      destruct HR' as [ -> | -> ]; [ exact HR | right; reflexivity ].
Qed.

Lemma kept_list_set (idx : nat) (l : list Value) :
  kept_in_order same_or_marker l (list_set idx (VStr Marker) l).
Proof.
  revert idx. induction l as [ | x l IH ]; intros idx.
  - destruct idx; constructor.
  - destruct idx as [ | idx ]; simpl.
    + apply kept_keep; [ right; reflexivity | ].
      apply kept_refl. intros y. left. reflexivity.
    + apply kept_keep; [ left; reflexivity | apply IH ].
Qed.

Lemma kept_remove_at (idx : nat) (l : list Value) :
  kept_in_order same_or_marker l (remove_at idx l).
Proof.
  unfold remove_at. revert idx. induction l as [ | x l IH ]; intros idx.
  - destruct idx; constructor.
  - destruct idx as [ | idx ]; simpl.
    + apply kept_drop. apply kept_refl. intros y. left. reflexivity.
    + apply kept_keep; [ left; reflexivity | apply IH ].
Qed.

(** Whatever the token, a turn of the enforcer on an array gives an array
    whose elements are elements of the old one, as they were or as the
    marker, in the old order. *)
Lemma applyRemoval_array (t : Trimmer) (l : list Value) (toRemove : string) :
  exists l', applyRemoval t (VArr l) toRemove = VArr l'
             /\ kept_in_order same_or_marker l l'.
Proof.
  assert (Hsame : kept_in_order same_or_marker l l).
  { apply kept_refl. intros y. left. reflexivity. }
  unfold applyRemoval.
  destruct (HasPrefix toRemove "idx:"); [ | eauto ].
  destruct (Sscanf_d (slice_from 4 toRemove)) as [ idx | ]; [ | eauto ].
  destruct ((idx >=? 0) && (idx <? Z.of_nat (List.length l))); [ | eauto ].
  destruct (ReplaceWithMarker (cfg t) && negb (is_Marker (nth (Z.to_nat idx) l VNil))).
  - eexists. split; [ reflexivity | apply kept_list_set ].
  - eexists. split; [ reflexivity | apply kept_remove_at ].
Qed.

Lemma enforceTotal_array (fuel : nat) (t : Trimmer) :
  forall l v',
    enforceTotal fuel t (VArr l) = Done v' ->
    exists l', v' = VArr l' /\ kept_in_order same_or_marker l l'.
Proof.
  induction fuel as [ | fuel IH ]; intros l v' H.
  - discriminate.
  - rewrite enforceTotal_S in H.
    assert (Hsame : kept_in_order same_or_marker l l).
    { apply kept_refl. intros y. left. reflexivity. }
    destruct (len (Json.Marshal (VArr l)) <=? TotalLimit (cfg t)).
    { inversion H. eauto. }
    destruct (Strategy (cfg t)) as [ s | ]; [ | discriminate ].
    destruct (String.eqb (SelectNextToRemove s (VArr l)) "").
    { inversion H. eauto. }
    destruct (applyRemoval_array t l (SelectNextToRemove s (VArr l)))
      as [ l1 [ E1 K1 ] ].
    rewrite E1 in H. destruct (IH l1 v' H) as [ l2 [ E2 K2 ] ].
    exists l2. split; [ exact E2 | eapply kept_trans; eassumption ].
Qed.

Lemma trim_elements_kept (t : Trimmer) (depth : Z) :
  forall l seen out,
    kept_in_order
      (fun x y => y = trimFields t x (depth + 1) \/ y = VStr Marker) seen out ->
    kept_in_order
      (fun x y => y = trimFields t x (depth + 1) \/ y = VStr Marker)
      (seen ++ l) (fold_left (trim_element t depth) l out).
Proof.
  induction l as [ | x l IH ]; simpl; intros seen out H.
  - rewrite app_nil_r. exact H.
  - replace (seen ++ x :: l)%list with ((seen ++ [x]) ++ l)%list
      by (rewrite <- app_assoc; reflexivity).
    apply IH. unfold trim_element.
    destruct (not_nil (trimFields t x (depth + 1))).
    + destruct (overFieldLimit t (trimFields t x (depth + 1))).
      * destruct (ReplaceWithMarker (cfg t)).
        -- apply kept_app; [ exact H | ].
           apply kept_keep; [ right; reflexivity | constructor ].
        -- rewrite <- (app_nil_r out).
           apply kept_app; [ exact H | apply kept_drop; constructor ].
      * apply kept_app; [ exact H | ].
        apply kept_keep; [ left; reflexivity | constructor ].
    + rewrite <- (app_nil_r out).
      apply kept_app; [ exact H | apply kept_drop; constructor ].
Qed.

Lemma strip_elements_kept (t : Trimmer) (path : list string) :
  forall l seen acc,
    kept_in_order (fun x y => exists p, y = stripRecursive t x p) seen (snd acc) ->
    kept_in_order (fun x y => exists p, y = stripRecursive t x p)
      (seen ++ l) (snd (fold_left (strip_element t path) l acc)).
Proof.
  induction l as [ | x l IH ]; simpl; intros seen acc H.
  - rewrite app_nil_r. exact H.
  - replace (seen ++ x :: l)%list with ((seen ++ [x]) ++ l)%list
      by (rewrite <- app_assoc; reflexivity).
    apply IH. unfold strip_element. simpl.
    destruct (not_nil _).
    + apply kept_app; [ exact H | ].
      apply kept_keep; [ eexists; reflexivity | constructor ].
    + rewrite <- (app_nil_r (snd acc)).
      apply kept_app; [ exact H | apply kept_drop; constructor ].
Qed.

Lemma nth_remove_at_before (idx j : nat) (l : list Value) (d : Value) :
  (j < idx)%nat -> (idx < List.length l)%nat ->
  nth j (remove_at idx l) d = nth j l d.
Proof.
  unfold remove_at. revert idx j.
  induction l as [ | x l IH ]; intros idx j Hj Hi; simpl in Hi; [ lia | ].
  destruct idx as [ | idx ]; [ lia | ]. simpl.
  destruct j as [ | j ]; [ reflexivity | ].
  apply IH; lia.
Qed.

Lemma nth_remove_at_after (idx j : nat) (l : list Value) (d : Value) :
  (idx <= j)%nat -> nth j (remove_at idx l) d = nth (S j) l d.
Proof.
  unfold remove_at. revert idx j.
  induction l as [ | x l IH ]; intros idx j Hj.
  - destruct idx; destruct j; reflexivity.
  - destruct idx as [ | idx ]; simpl.
    + reflexivity.
    + destruct j as [ | j ]; [ lia | ]. simpl in IH. apply IH. lia.
Qed.

(** C8.  No stage changes the order of array elements.  Removing index
    [idx] leaves the elements before it in place and moves each later one
    left by one; whatever the strategy, the array the total enforcer ends
    with is made of elements of the one it started with, each as it was
    or replaced by the marker, in their old order; the arrays built by the
    field trimmer and by the blacklist stripper hold the images of the
    elements they keep, in the order of the input. *)
Theorem array_order_preserved :
  (forall (idx j : nat) (l : list Value) (d : Value),
      (idx < List.length l)%nat ->
      ((j < idx)%nat -> nth j (remove_at idx l) d = nth j l d)
      /\ ((idx <= j)%nat -> nth j (remove_at idx l) d = nth (S j) l d))
  /\ (forall (fuel : nat) (t : Trimmer) (l : list Value) (v' : Value),
         enforceTotal fuel t (VArr l) = Done v' ->
         exists l', v' = VArr l' /\ kept_in_order same_or_marker l l')
  /\ (forall (t : Trimmer) (l : list Value) (depth : Z),
         depth <= MaxDepth (cfg t) ->
         exists l',
           trimFields t (VArr l) depth = VArr l'
           /\ kept_in_order
                (fun x y => y = trimFields t x (depth + 1) \/ y = VStr Marker)
                l l')
  /\ (forall (t : Trimmer) (l l' : list Value) (path : list string),
         stripRecursive t (VArr l) path = VArr l' ->
         kept_in_order (fun x y => exists p, y = stripRecursive t x p) l l').
Proof.
  split; [ | split; [ | split ] ].
  - intros idx j l d Hi. split; intros Hj.
    + apply nth_remove_at_before; assumption.
    + apply nth_remove_at_after; assumption.
  - intros fuel t l v' H. eapply enforceTotal_array; eassumption.
  - intros t l depth Hd.
    assert (E : (depth >? MaxDepth (cfg t)) = false).
    { destruct (Z.gtb_spec depth (MaxDepth (cfg t))); [ lia | reflexivity ]. }
    rewrite trimFields_VArr by exact E. eexists. split; [ reflexivity | ].
    apply (trim_elements_kept t depth l [] []). constructor.
  - intros t l l' path H.
    destruct (matchesBlacklist t path) eqn:Hp.
    + rewrite stripRecursive_matched in H by exact Hp.
      unfold removed in H. destruct (ReplaceWithMarker (cfg t)); discriminate.
    + rewrite stripRecursive_VArr in H by exact Hp. cbv zeta in H.
      destruct (List.length _ =? 0)%nat; [ discriminate | ].
      inversion H; subst l'.
      apply (strip_elements_kept t path l [] (0, [])). constructor.
Qed.

Lemma array_order_preserved_witness :
  exists l', VArr orderOutput = VArr l'
             /\ kept_in_order same_or_marker orderInput l'.
Proof.
  apply (proj1 (proj2 array_order_preserved) 2%nat (New orderConfig)
           orderInput (VArr orderOutput)).
  vm_compute. reflexivity.
Defined.

(** ** Index tokens *)

Lemma digits_of_uint (d : uint) (rest : string) :
  take_number (NilEmpty.string_of_uint d ++ rest)
  = NilEmpty.string_of_uint d ++ take_number rest.
Proof.
  induction d; simpl; try rewrite IHd; reflexivity.
Qed.

Lemma take_number_of_uint (d : uint) :
  take_number (NilEmpty.string_of_uint d) = NilEmpty.string_of_uint d.
Proof.
  pose proof (digits_of_uint d EmptyString) as H.
  assert (E : forall s, s ++ EmptyString = s).
  { induction s as [ | c s IH ]; simpl; [ reflexivity | rewrite IH; reflexivity ]. }
  rewrite E in H. simpl in H. rewrite E in H. exact H.
Qed.

Lemma first_byte_of_uint (d : uint) :
  d <> Nil ->
  exists c s, NilEmpty.string_of_uint d = String c s
              /\ Json.in_range 48 57 c = true.
Proof.
  destruct d; [ congruence | .. ]; intros _;
    eexists _, _; split; reflexivity.
Qed.

(** A byte from the sign [+] to the digit [9] is no space and no newline,
    and starts no longer rune. *)
Lemma skip_spaces_at_token (c : ascii) (s : string) :
  (43 <= N_of_ascii c <= 57)%N ->
  skip_spaces 0 (String c s) = Some (String c s).
Proof.
  intros Hn. cbn [skip_spaces space_size].
  destruct (N.eqb_spec (N_of_ascii c) 10) as [ E | _ ]; [ lia | ].
  assert (H1 : (((9 <=? N_of_ascii c) && (N_of_ascii c <=? 13))
                || (N_of_ascii c =? 32))%N = false).
  { apply orb_false_iff. split.
    - apply andb_false_iff. right. apply N.leb_gt. lia.
    - apply N.eqb_neq. lia. }
  rewrite H1.
  assert (H194 : (N_of_ascii c =? 194)%N = false) by (apply N.eqb_neq; lia).
  assert (H225 : (N_of_ascii c =? 225)%N = false) by (apply N.eqb_neq; lia).
  assert (H226 : (N_of_ascii c =? 226)%N = false) by (apply N.eqb_neq; lia).
  assert (H227 : (N_of_ascii c =? 227)%N = false) by (apply N.eqb_neq; lia).
  destruct s as [ | c1 [ | c2 s ] ]; try reflexivity.
  - rewrite H194. reflexivity.
  - rewrite H194, H225, H226, H227. reflexivity.
Qed.

Lemma Sscanf_d_unsigned (c : ascii) (s : string) (d : uint) :
  Json.in_range 48 57 c = true ->
  take_number (String c s) = String c s ->
  NilEmpty.uint_of_string (String c s) = Some d ->
  Sscanf_d (String c s) = Some (Z.of_nat (Nat.of_uint d)).
Proof.
  intros Hc Htake Hparse.
  assert (Hn : (48 <= N_of_ascii c <= 57)%N).
  { unfold Json.in_range in Hc. apply andb_true_iff in Hc.
    destruct Hc as [ H1 H2 ]. apply N.leb_le in H1. apply N.leb_le in H2. lia. }
  assert (Hskip : skip_spaces 0 (String c s) = Some (String c s)).
  { apply skip_spaces_at_token. lia. }
  unfold Sscanf_d. rewrite Hskip.
  destruct (Ascii.eqb_spec c "-"%char) as [ -> | _ ]; [ simpl in Hn; lia | ].
  destruct (Ascii.eqb_spec c "+"%char) as [ -> | _ ]; [ simpl in Hn; lia | ].
  cbv beta iota zeta. unfold snd, fst. rewrite Htake, Hparse. reflexivity.
Qed.

(** What [Sscanf] reads back from the decimal form of an index. *)
Lemma Sscanf_d_itoa (i : nat) : Sscanf_d (itoa i) = Some (Z.of_nat i).
Proof.
  unfold itoa, NilZero.string_of_uint.
  pose proof (DecimalNat.Unsigned.of_to i) as Hof.
  destruct (Nat.to_uint i) as [ | d | d | d | d | d | d | d | d | d | d ] eqn:E;
    [ simpl in Hof; subst i; reflexivity | .. ].
  all: rewrite <- Hof.
  all: match goal with
       | |- Sscanf_d (NilEmpty.string_of_uint ?u) = _ =>
           destruct (first_byte_of_uint u ltac:(discriminate)) as [ c [ s [ Hs Hc ] ] ];
           pose proof (take_number_of_uint u) as Ht;
           pose proof (NilEmpty.usu u) as Hu;
           rewrite Hs in *;
           apply Sscanf_d_unsigned; assumption
       end.
Qed.

Lemma slice_from_idx (s : string) : slice_from 4 ("idx:" ++ s) = s.
Proof.
  unfold slice_from. simpl.
  induction s as [ | c s IH ]; simpl; [ reflexivity | ].
  rewrite Nat.sub_0_r in *. f_equal. exact IH.
Qed.

Lemma HasPrefix_idx (s : string) : HasPrefix ("idx:" ++ s) "idx:" = true.
Proof.
  unfold HasPrefix. destruct s; reflexivity.
Qed.

(** ** What the built-in strategies answer *)

Lemma In_keys_map_set {A : Type} (k k2 : string) (x : A) (out : list (string * A)) :
  In k (map fst (map_set k2 x out)) -> k = k2 \/ In k (map fst out).
Proof.
  induction out as [ | [k' x'] out IH ]; simpl; intros H.
  - destruct H as [ H | [] ]. left. symmetry. exact H.
  - destruct (String.eqb k2 k') eqn:E; simpl in H.
    + apply String.eqb_eq in E. subst k'.
      destruct H as [ H | H ]; [ left; symmetry; exact H | right; right; exact H ].
    + destruct H as [ H | H ]; [ right; left; exact H | ].
      destruct (IH H) as [ L | R ]; [ left; exact L | right; right; exact R ].
Qed.

Lemma largest_key (m : list (string * Value)) :
  forall acc : string * Z,
    let r := fold_left
               (fun (acc : string * Z) (kv : string * Value) =>
                  let sz := estimateSize (snd kv) in
                  if sz >? snd acc then (fst kv, sz) else acc)
               m acc in
    fst r = fst acc \/ In (fst r) (map fst m).
Proof.
  induction m as [ | [k x] m IH ]; intros acc; cbv zeta; simpl fold_left.
  - left. reflexivity.
  - match goal with
    | |- context [fold_left ?F m ?a] =>
        destruct (IH a) as [ H | H ]; cbv zeta in H
    end.
    + rewrite H. simpl snd. simpl fst.
      destruct (estimateSize x >? snd acc); simpl; auto.
    + right. right. exact H.
Qed.

Lemma largest_idx (l : list Value) :
  forall i mi ms : Z,
    let r := fold_left
               (fun (acc : Z * Z * Z) (item : Value) =>
                  let '(i, maxIdx, maxSize) := acc in
                  let sz := estimateSize item in
                  if sz >? maxSize then (i + 1, i, sz)
                  else (i + 1, maxIdx, maxSize))
               l (i, mi, ms) in
    snd (fst r) = mi \/ (i <= snd (fst r) < i + Z.of_nat (List.length l)).
Proof.
  induction l as [ | x l IH ]; intros i mi ms; simpl fold_left.
  - left. reflexivity.
  - cbv zeta. destruct (estimateSize x >? ms).
    + destruct (IH (i + 1) i (estimateSize x)) as [ H | H ];
        cbv zeta in H; right; simpl List.length; lia.
    + destruct (IH (i + 1) mi ms) as [ H | H ]; cbv zeta in H;
        [ left; exact H | right; simpl List.length; lia ].
Qed.

Lemma Sprintf_d_index (n : Z) : 0 <= n -> Sprintf_d n = itoa (Z.to_nat n).
Proof.
  intros H. unfold Sprintf_d.
  destruct (Z.ltb_spec n 0); [ lia | reflexivity ].
Qed.

Lemma RemoveLargest_names_a_child : names_a_child RemoveLargest_select.
Proof.
  split; [ | split ].
  - intros m. unfold RemoveLargest_select.
    destruct (largest_key m ("", 0)) as [ H | H ]; cbv zeta in H; auto.
  - intros l. unfold RemoveLargest_select.
    pose proof (largest_idx l 0 (-1) 0) as H. cbv zeta in H |- *.
    set (r := snd (fst (fold_left _ l (0, -1, 0)))) in *.
    destruct H as [ H | H ].
    + rewrite H. left. reflexivity.
    + destruct (Z.geb_spec r 0) as [ G | G ]; [ | lia ].
      right. exists (Z.to_nat r). split; [ lia | ].
      rewrite Sprintf_d_index by lia. reflexivity.
  - intros [ | | | | | ]; simpl; auto.
Qed.

Lemma FIFO_names_a_child : names_a_child FIFO_select.
Proof.
  split; [ | split ].
  - intros [ | [k x] m ]; simpl; auto.
  - intros [ | x l ]; simpl; [ left; reflexivity | ].
    right. exists 0%nat. split; [ lia | reflexivity ].
  - intros [ | | | | | ]; simpl; auto.
Qed.

Lemma candidate_keys (KeepKeys : list string) (m : list (string * Value)) :
  forall c k,
    In k (map fst (fold_left
                     (fun c (kv : string * Value) =>
                        if isKeepKey KeepKeys (fst kv) then c
                        else map_set (fst kv) (snd kv) c)
                     m c)) ->
    In k (map fst c) \/ In k (map fst m).
Proof.
  induction m as [ | [k' x] m IH ]; simpl; intros c k H.
  - left. exact H.
  - apply IH in H. destruct H as [ H | H ]; [ | right; right; exact H ].
    destruct (isKeepKey KeepKeys k'); [ left; exact H | ].
    apply In_keys_map_set in H.
    destruct H as [ -> | H ]; [ right; left; reflexivity | left; exact H ].
Qed.

Lemma prioritize_names_a_child (KeepKeys : list string) (fallback : Value -> string) :
  names_a_child fallback ->
  names_a_child
    (fun v =>
       if Z.of_nat (List.length KeepKeys) =? 0 then fallback v
       else match v with
            | VObj vv =>
                let candidates :=
                  fold_left
                    (fun c (kv : string * Value) =>
                       if isKeepKey KeepKeys (fst kv) then c
                       else map_set (fst kv) (snd kv) c)
                    vv [] in
                if Z.of_nat (List.length candidates) >? 0
                then fallback (VObj candidates)
                else fallback v
            | _ => ""
            end).
Proof.
  intros [ Ho [ Ha Hv ] ]. split; [ | split ].
  - intros m. destruct (Z.of_nat (List.length KeepKeys) =? 0); [ apply Ho | ].
    cbv zeta. destruct (Z.of_nat (List.length _) >? 0); [ | apply Ho ].
    match goal with
    | |- context [VObj ?c] =>
        destruct (Ho c) as [ H | H ]; [ left; exact H | right ]
    end.
    apply candidate_keys in H. destruct H as [ [] | H ]. exact H.
  - intros l. destruct (Z.of_nat (List.length KeepKeys) =? 0);
      [ apply Ha | left; reflexivity ].
  - intros v. destruct (Z.of_nat (List.length KeepKeys) =? 0).
    + apply Hv.
    + destruct v; auto.
Qed.

Lemma built_in_names_a_child :
  forall s, built_in s = true -> names_a_child (SelectNextToRemove s).
Proof.
  fix IH 1. intros [ | | KeepKeys [ f | ] | select ] Hs.
  - apply RemoveLargest_names_a_child.
  - apply FIFO_names_a_child.
  - simpl in Hs.
    apply (prioritize_names_a_child KeepKeys (SelectNextToRemove f)), IH, Hs.
  - apply (prioritize_names_a_child KeepKeys FIFO_select), FIFO_names_a_child.
  - discriminate.
Qed.

(** ** Every effective turn lowers the measure *)

Lemma entry_weight_pos (x : Value) : (1 <= entry_weight x)%nat.
Proof.
  unfold entry_weight. destruct (is_Marker x); lia.
Qed.

Lemma map_get_In {A : Type} (k : string) (m : list (string * A)) :
  In k (map fst m) -> exists x, map_get k m = Some x.
Proof.
  induction m as [ | [k' x'] m IH ]; simpl; intros H; [ destruct H | ].
  destruct (String.eqb k k') eqn:E; [ eauto | ].
  destruct H as [ H | H ]; [ | apply IH, H ].
  subst k'. rewrite String.eqb_refl in E. discriminate.
Qed.

Lemma weight_map_set (k : string) (m : list (string * Value)) (x : Value) :
  map_get k m = Some x ->
  is_Marker x = false ->
  (weight (VObj (map_set k (VStr Marker) m)) + 1 = weight (VObj m))%nat
  /\ List.length (map_set k (VStr Marker) m) = List.length m.
Proof.
  simpl. induction m as [ | [k' x'] m IH ]; simpl; intros Hget Hx; [ discriminate | ].
  destruct (String.eqb k k').
  - inversion Hget; subst x'. simpl. unfold entry_weight in *. simpl.
    rewrite Hx. split; lia.
  - simpl. destruct (IH Hget Hx) as [ H1 H2 ]. split; lia.
Qed.

Lemma weight_map_delete_le (k : string) (m : list (string * Value)) :
  (weight (VObj (map_delete k m)) <= weight (VObj m))%nat
  /\ (List.length (map_delete k m) <= List.length m)%nat.
Proof.
  simpl. induction m as [ | [k' x'] m IH ]; simpl; [ split; lia | ].
  destruct IH as [ H1 H2 ].
  destruct (String.eqb k k'); simpl; split; lia.
Qed.

Lemma weight_map_delete (k : string) (m : list (string * Value)) :
  In k (map fst m) ->
  (weight (VObj (map_delete k m)) < weight (VObj m))%nat
  /\ (List.length (map_delete k m) < List.length m)%nat.
Proof.
  simpl. induction m as [ | [k' x'] m IH ]; simpl; intros H; [ destruct H | ].
  pose proof (entry_weight_pos x') as Hpos.
  destruct (String.eqb k k') eqn:E.
  - pose proof (weight_map_delete_le k m) as [ H1 H2 ]. simpl in H1.
    split; lia.
  - destruct H as [ H | H ].
    + subst k'. rewrite String.eqb_refl in E. discriminate.
    + destruct (IH H) as [ H1 H2 ]. simpl. split; lia.
Qed.

Lemma weight_list_set (idx : nat) (l : list Value) :
  (idx < List.length l)%nat ->
  is_Marker (nth idx l VNil) = false ->
  (weight (VArr (list_set idx (VStr Marker) l)) + 1 = weight (VArr l))%nat
  /\ List.length (list_set idx (VStr Marker) l) = List.length l.
Proof.
  simpl. revert idx.
  induction l as [ | x l IH ]; intros idx Hi Hx; simpl in *; [ lia | ].
  destruct idx as [ | idx ]; simpl.
  - unfold entry_weight in *. simpl. rewrite Hx. split; lia.
  - destruct (IH idx) as [ H1 H2 ]; [ lia | exact Hx | ]. split; lia.
Qed.

Lemma weight_remove_at (idx : nat) (l : list Value) :
  (idx < List.length l)%nat ->
  (weight (VArr (remove_at idx l)) < weight (VArr l))%nat
  /\ (List.length (remove_at idx l) < List.length l)%nat.
Proof.
  unfold remove_at. simpl. revert idx.
  induction l as [ | x l IH ]; intros idx Hi; simpl in *; [ lia | ].
  pose proof (entry_weight_pos x) as Hpos.
  destruct idx as [ | idx ]; simpl.
  - split; lia.
  - destruct (IH idx) as [ H1 H2 ]; [ lia | ]. split; lia.
Qed.

Lemma key_has_no_idx_prefix (m : list (string * Value)) (k : string) :
  no_idx_key (VObj m) = true -> In k (map fst m) -> HasPrefix k "idx:" = false.
Proof.
  simpl. intros Hall Hin. apply in_map_iff in Hin.
  destruct Hin as [ [k' x] [ Hk Hin ] ]. simpl in Hk. subst k'.
  rewrite forallb_forall in Hall. specialize (Hall _ Hin). simpl in Hall.
  destruct (HasPrefix k "idx:"); [ discriminate | reflexivity ].
Qed.

Lemma no_idx_key_map_delete (k : string) (m : list (string * Value)) :
  no_idx_key (VObj m) = true -> no_idx_key (VObj (map_delete k m)) = true.
Proof.
  simpl. induction m as [ | [k' x'] m IH ]; simpl; intros H; [ reflexivity | ].
  apply andb_true_iff in H. destruct H as [ H1 H2 ].
  destruct (String.eqb k k'); simpl; [ apply IH, H2 | ].
  rewrite H1, (IH H2). reflexivity.
Qed.

(** One turn of the loop on a value without index-like keys, with a
    selector that names a child. *)
Lemma turn_progress (t : Trimmer) (select : Value -> string) (v : Value) :
  names_a_child select ->
  no_idx_key v = true ->
  String.eqb (select v) "" = false ->
  (weight (applyRemoval t v (select v)) < weight v)%nat
  /\ no_idx_key (applyRemoval t v (select v)) = true
  /\ (ReplaceWithMarker (cfg t) = false ->
      (entries (applyRemoval t v (select v)) < entries v)%nat).
Proof.
  intros [ Ho [ Ha Hv ] ] Hkeys Htok.
  apply String.eqb_neq in Htok.
  destruct v as [ | b | r | s | m | l ];
    try (exfalso; apply Htok; apply (Hv VNil));
    try (exfalso; apply Htok; apply (Hv (VBool b)));
    try (exfalso; apply Htok; apply (Hv (VNum r)));
    try (exfalso; apply Htok; apply (Hv (VStr s))).
  - destruct (Ho m) as [ H | Hin ]; [ contradiction | ].
    pose proof (key_has_no_idx_prefix m _ Hkeys Hin) as Hp.
    destruct (map_get_In _ m Hin) as [ x Hget ].
    unfold applyRemoval. rewrite Hp, Hget. simpl negb.
    destruct (ReplaceWithMarker (cfg t)) eqn:HM; simpl andb.
    + destruct (is_Marker x) eqn:Hx; simpl negb; cbv iota.
      * destruct (weight_map_delete _ m Hin) as [ H1 H2 ].
        split; [ exact H1 | split; [ | discriminate ] ].
        apply no_idx_key_map_delete, Hkeys.
      * destruct (weight_map_set _ m x Hget Hx) as [ H1 H2 ].
        split; [ lia | split; [ | discriminate ] ].
        simpl. apply forallb_map_set; [ | exact Hkeys ].
        simpl. rewrite Hp. reflexivity.
    + destruct (weight_map_delete _ m Hin) as [ H1 H2 ].
      split; [ exact H1 | split; [ | intros _; exact H2 ] ].
      apply no_idx_key_map_delete, Hkeys.
  - destruct (Ha l) as [ H | [ i [ Hi Hsel ] ] ]; [ contradiction | ].
    unfold applyRemoval. rewrite Hsel, HasPrefix_idx, slice_from_idx, Sscanf_d_itoa.
    assert (Hrange : (Z.of_nat i >=? 0) && (Z.of_nat i <? Z.of_nat (List.length l)) = true).
    { apply andb_true_iff. split; [ apply Z.geb_le | apply Z.ltb_lt ]; lia. }
    rewrite Hrange, Nat2Z.id.
    destruct (ReplaceWithMarker (cfg t)) eqn:HM; simpl andb.
    + destruct (is_Marker (nth i l VNil)) eqn:Hx; simpl negb; cbv iota.
      * destruct (weight_remove_at i l Hi) as [ H1 H2 ].
        split; [ exact H1 | split; [ reflexivity | discriminate ] ].
      * destruct (weight_list_set i l Hi Hx) as [ H1 H2 ].
        split; [ lia | split; [ reflexivity | discriminate ] ].
    + destruct (weight_remove_at i l Hi) as [ H1 H2 ].
      split; [ exact H1 | split; [ reflexivity | intros _; exact H2 ] ].
Qed.

Lemma enforceTotal_enough_fuel (t : Trimmer) (s : TruncStrategy) :
  Strategy (cfg t) = Some s ->
  names_a_child (SelectNextToRemove s) ->
  forall fuel v,
    no_idx_key v = true ->
    (weight v < fuel)%nat ->
    exists v',
      enforceTotal fuel t v = Done v'
      /\ (len (Json.Marshal v') <= TotalLimit (cfg t)
          \/ SelectNextToRemove s v' = "").
Proof.
  intros Hs Hsel. induction fuel as [ | fuel IH ]; intros v Hkeys Hw; [ lia | ].
  rewrite enforceTotal_S, Hs.
  destruct (Z.leb_spec (len (Json.Marshal v)) (TotalLimit (cfg t))) as [ Hle | Hgt ].
  { exists v. split; [ reflexivity | left; exact Hle ]. }
  destruct (String.eqb (SelectNextToRemove s v) "") eqn:Htok.
  { exists v. split; [ reflexivity | right; apply String.eqb_eq; exact Htok ]. }
  destruct (turn_progress t (SelectNextToRemove s) v Hsel Hkeys Htok)
    as [ Hless [ Hkeys' _ ] ].
  apply IH; [ exact Hkeys' | lia ].
Qed.

(** C9, as stated, fails: with [ReplaceWithMarker] the first turn on an
    array of one string of 20 bytes puts the marker in its place, and the
    array is as long as before; the element goes at the second turn. *)
Lemma marker_turn_keeps_entry_count :
  len (Json.Marshal markerInput) = 24
  /\ TotalLimit (cfg (New markerConfig)) = 10
  /\ SelectNextToRemove RemoveLargest markerInput = "idx:0"
  /\ applyRemoval (New markerConfig) markerInput "idx:0" = VArr [VStr Marker]
  /\ entries (applyRemoval (New markerConfig) markerInput "idx:0")
     = entries markerInput
  /\ enforceTotal 3 (New markerConfig) markerInput = Done (VArr []).
Proof.
  repeat split; vm_compute; reflexivity.
Qed.

(** C9, amended.  For a built-in strategy and a value that, when it is an
    object, has no key starting with [idx:], the loop of the total
    enforcer ends: one turn more than the weight of the value is enough,
    and it stops with the encoding within [TotalLimit] or with the
    strategy naming nothing.  Every turn that removes lowers the weight:
    it deletes a member or element, or, with [ReplaceWithMarker], puts the
    marker in place of one that is not yet the marker; without
    [ReplaceWithMarker] it lowers the entry count of the object or the
    length of the array. *)
Theorem enforceTotal_terminates (t : Trimmer) (s : TruncStrategy) (v : Value) :
  Strategy (cfg t) = Some s ->
  built_in s = true ->
  no_idx_key v = true ->
  (forall fuel, (weight v < fuel)%nat ->
     exists v',
       enforceTotal fuel t v = Done v'
       /\ (len (Json.Marshal v') <= TotalLimit (cfg t)
           \/ SelectNextToRemove s v' = ""))
  /\ (len (Json.Marshal v) > TotalLimit (cfg t) ->
      SelectNextToRemove s v <> "" ->
      (weight (applyRemoval t v (SelectNextToRemove s v)) < weight v)%nat
      /\ (ReplaceWithMarker (cfg t) = false ->
          (entries (applyRemoval t v (SelectNextToRemove s v)) < entries v)%nat)).
Proof.
  intros Hs Hb Hkeys.
  pose proof (built_in_names_a_child s Hb) as Hsel.
  split.
  - intros fuel Hw. eapply enforceTotal_enough_fuel; eassumption.
  - intros _ Htok. apply String.eqb_neq in Htok.
    destruct (turn_progress t (SelectNextToRemove s) v Hsel Hkeys Htok)
      as [ H1 [ _ H2 ] ].
    split; assumption.
Qed.

Lemma enforceTotal_terminates_witness :
  exists v',
    enforceTotal 3 (New markerConfig) markerInput = Done v'
    /\ (len (Json.Marshal v') <= TotalLimit (cfg (New markerConfig))
        \/ SelectNextToRemove RemoveLargest v' = "").
Proof.
  apply (proj1 (enforceTotal_terminates (New markerConfig) RemoveLargest markerInput
                  eq_refl eq_refl eq_refl) 3%nat).
  vm_compute. lia.
Defined.

(** * Further properties of the code *)

(** ** Blacklist rules *)

Lemma rule_matches_Forall2 (rule path : list string) :
  List.length rule = List.length path ->
  (rule_matches rule path = true <-> Forall2 segment_matches rule path).
Proof.
  revert path. induction rule as [ | part rule IH ]; intros [ | seg path ] Hlen;
    simpl in Hlen; try discriminate.
  - split; [ constructor | reflexivity ].
  - simpl. injection Hlen as Hlen. specialize (IH path Hlen).
    destruct (String.eqb_spec part "*") as [ Hw | Hw ];
      destruct (String.eqb_spec part seg) as [ Hs | Hs ]; simpl.
    + rewrite IH. split; intros H.
      * constructor; [ left; exact Hw | exact H ].
      * inversion H; assumption.
    + rewrite IH. split; intros H.
      * constructor; [ left; exact Hw | exact H ].
      * inversion H; assumption.
    + rewrite IH. split; intros H.
      * constructor; [ right; exact Hs | exact H ].
      * inversion H; assumption.
    + split; intros H; [ discriminate | ].
      inversion H as [ | ? ? ? ? Hm ]; subst. destruct Hm; contradiction.
Qed.

Lemma matchesBlacklist_Forall2 (t : Trimmer) (path : list string) :
  matchesBlacklist t path = true <->
  path <> [] /\ exists rule, In rule (blacklistParts t)
                             /\ Forall2 segment_matches rule path.
Proof.
  unfold matchesBlacklist.
  destruct (Nat.eqb_spec (List.length path) 0) as [ H0 | H0 ].
  - apply length_zero_iff_nil in H0. subst path.
    split; [ discriminate | intros [ H _ ]; contradiction ].
  - rewrite existsb_exists. split.
    + intros [ rule [ Hin Hm ] ]. split; [ intros ->; apply H0; reflexivity | ].
      exists rule. split; [ exact Hin | ].
      destruct (Nat.eqb_spec (List.length rule) (List.length path))
        as [ Hlen | Hlen ]; simpl in Hm; [ | discriminate ].
      apply rule_matches_Forall2; assumption.
    + intros [ _ [ rule [ Hin Hm ] ] ]. exists rule. split; [ exact Hin | ].
      pose proof (Forall2_length Hm) as Hlen.
      destruct (Nat.eqb_spec (List.length rule) (List.length path))
        as [ _ | Hne ]; [ | contradiction ].
      simpl. apply rule_matches_Forall2; assumption.
Qed.

(** X2.  A path matches the blacklist exactly when it is not the root and
    some rule has as many segments as the path, each of them the wildcard
    or equal to the path segment at its place; the rules of a trimmer
    built by [New] are the patterns of the configuration cut at the dots. *)
Theorem blacklist_rule_matching :
  forall (t : Trimmer) (path : list string),
    (matchesBlacklist t path = true <->
     path <> [] /\ exists rule, In rule (blacklistParts t)
                                /\ Forall2 segment_matches rule path)
    /\ forall c : Config, blacklistParts (New c) = map Split_dot (Blacklist c).
Proof.
  intros t path. split; [ apply matchesBlacklist_Forall2 | reflexivity ].
Qed.

Lemma Split_dot_nonempty (p : string) : Split_dot p <> [].
Proof.
  destruct p as [ | c p ]; simpl; [ discriminate | ].
  destruct (Ascii.eqb c "."); [ discriminate | ].
  destruct (Split_dot p); discriminate.
Qed.

Lemma Split_dot_no_dot (p : string) :
  Forall (fun part => has_dot part = false) (Split_dot p).
Proof.
  induction p as [ | c p IH ]; simpl.
  - constructor; [ reflexivity | constructor ].
  - destruct (Ascii.eqb c ".") eqn:E.
    + constructor; [ reflexivity | exact IH ].
    + destruct (Split_dot p) as [ | part parts ].
      * constructor; [ simpl; rewrite E; reflexivity | constructor ].
      * inversion IH; subst. constructor; [ | assumption ].
        simpl. rewrite E. assumption.
Qed.

Lemma Split_dot_concat (p : string) : String.concat "." (Split_dot p) = p.
Proof.
  induction p as [ | c p IH ]; simpl; [ reflexivity | ].
  destruct (Ascii.eqb_spec c ".") as [ -> | Hc ].
  - pose proof (Split_dot_nonempty p) as Hne.
    destruct (Split_dot p) as [ | part parts ]; [ contradiction | ].
    cbn [String.concat]. cbn [String.concat] in IH.
    destruct parts; simpl in *; rewrite IH; reflexivity.
  - pose proof (Split_dot_nonempty p) as Hne.
    destruct (Split_dot p) as [ | part parts ]; [ contradiction | ].
    cbn [String.concat] in *.
    destruct parts; simpl in *; rewrite IH; reflexivity.
Qed.

Lemma Forall2_In_right {A B : Type} (R : A -> B -> Prop) (l : list A) (l' : list B)
  (y : B) :
  Forall2 R l l' -> In y l' -> exists x, In x l /\ R x y.
Proof.
  induction 1 as [ | a b l l' HR H IH ]; intros Hin; [ destruct Hin | ].
  destruct Hin as [ -> | Hin ].
  - exists a. split; [ left; reflexivity | exact HR ].
  - destruct (IH Hin) as [ x [ Hx Hr ] ]. exists x. split; [ right; exact Hx | exact Hr ].
Qed.

(** X3.  Cutting a pattern at its dots loses nothing (joining the parts
    with dots gives the pattern back) and leaves no dot in any part; so a
    path through a key that holds a dot is matched by no rule unless some
    pattern has a wildcard segment. *)
Theorem dotted_key_needs_wildcard :
  forall (c : Config) (path : list string) (seg : string),
    In seg path ->
    has_dot seg = true ->
    (forall p part, In p (Blacklist c) -> In part (Split_dot p) -> part <> "*") ->
    matchesBlacklist (New c) path = false
    /\ (forall p, String.concat "." (Split_dot p) = p
                  /\ Forall (fun part => has_dot part = false) (Split_dot p)).
Proof.
  intros c path seg Hin Hdot Hnowild. split.
  - destruct (matchesBlacklist (New c) path) eqn:E; [ exfalso | reflexivity ].
    apply matchesBlacklist_Forall2 in E.
    destruct E as [ _ [ rule [ Hrule Hm ] ] ].
    simpl in Hrule. apply in_map_iff in Hrule. destruct Hrule as [ p [ <- Hp ] ].
    destruct (Forall2_In_right _ _ _ seg Hm Hin) as [ part [ Hpart [ Hw | Hs ] ] ].
    + exact (Hnowild p part Hp Hpart Hw).
    + subst part. pose proof (Split_dot_no_dot p) as Hnd.
      rewrite Forall_forall in Hnd. rewrite (Hnd seg Hpart) in Hdot. discriminate.
  - intros p. split; [ apply Split_dot_concat | apply Split_dot_no_dot ].
Qed.

Lemma dotted_key_needs_wildcard_witness :
  matchesBlacklist (New (zeroConfig ["a.b"] false false)) ["a.b"] = false
  /\ (forall p, String.concat "." (Split_dot p) = p
                /\ Forall (fun part => has_dot part = false) (Split_dot p)).
Proof.
  apply (dotted_key_needs_wildcard (zeroConfig ["a.b"] false false) ["a.b"] "a.b").
  - left. reflexivity.
  - reflexivity.
  - intros p part [ <- | [] ] Hpart. simpl in Hpart.
    destruct Hpart as [ <- | [ <- | [] ] ]; discriminate.
Defined.

(** ** Documents the stages leave alone *)

Lemma map_set_fresh {A : Type} (k : string) (x : A) (acc : list (string * A)) :
  existsb (String.eqb k) (map fst acc) = false ->
  map_set k x acc = (acc ++ [(k, x)])%list.
Proof.
  induction acc as [ | [k' x'] acc IH ]; simpl; intros H; [ reflexivity | ].
  apply orb_false_iff in H. destruct H as [ H1 H2 ].
  rewrite H1, (IH H2). reflexivity.
Qed.

Lemma existsb_app_false (k : string) (l1 l2 : list string) :
  existsb (String.eqb k) l1 = false ->
  existsb (String.eqb k) l2 = false ->
  existsb (String.eqb k) (l1 ++ l2) = false.
Proof.
  intros H1 H2. rewrite existsb_app, H1, H2. reflexivity.
Qed.

(** A loop that puts back every member of [m] as it is rebuilds [m] behind
    what it started with, when no key occurs twice. *)
Lemma fold_map_set_rebuilds (step : list (string * Value) -> string * Value ->
                                    list (string * Value)) :
  forall m acc,
    (forall out kv, In kv m -> step out kv = map_set (fst kv) (snd kv) out) ->
    unique_keys (map fst m) = true ->
    (forall k, In k (map fst m) -> existsb (String.eqb k) (map fst acc) = false) ->
    fold_left step m acc = (acc ++ m)%list.
Proof.
  induction m as [ | [k x] m IH ]; intros acc Hstep Hu Hfresh; simpl.
  - rewrite app_nil_r. reflexivity.
  - simpl in Hu. apply andb_true_iff in Hu. destruct Hu as [ Hk Hu ].
    apply negb_true_iff in Hk.
    rewrite (Hstep acc (k, x)) by (left; reflexivity). simpl.
    rewrite map_set_fresh by (apply Hfresh; left; reflexivity).
    rewrite IH.
    + rewrite <- app_assoc. reflexivity.
    + intros out kv Hin. apply Hstep. right. exact Hin.
    + exact Hu.
    + intros k' Hin'. rewrite map_app. apply existsb_app_false.
      * apply Hfresh. right. exact Hin'.
      * simpl. rewrite orb_false_r.
        destruct (String.eqb_spec k' k) as [ -> | ]; [ | reflexivity ].
        exfalso. assert (Hex : exists y, In y (map fst m) /\ String.eqb k y = true).
        { exists k. split; [ exact Hin' | apply String.eqb_refl ]. }
        rewrite <- existsb_exists in Hex. congruence.
Qed.

Lemma strip_elements_rebuild (t : Trimmer) (pre : list string) :
  forall l i out,
    Forall (fun x => forall p, strip_keeps x = true ->
                               paths_unmatched t p x = true ->
                               stripRecursive t x p = x) l ->
    forallb (fun x => not_nil x && strip_keeps x) l = true ->
    (fix elements (i : Z) (l : list Value) : bool :=
       match l with
       | [] => true
       | x :: l' =>
           paths_unmatched t (pre ++ [Sprintf_d i])%list x && elements (i + 1) l'
       end) i l = true ->
    fold_left (strip_element t pre) l (i, out)
    = (i + Z.of_nat (List.length l), (out ++ l)%list).
Proof.
  induction l as [ | x l IH ]; intros i out HF Hk Hp.
  - simpl. rewrite app_nil_r, Z.add_0_r. reflexivity.
  - inversion HF as [ | ? ? Hx HF' ]; subst.
    simpl in Hk. apply andb_true_iff in Hk. destruct Hk as [ Hkx Hk ].
    apply andb_true_iff in Hkx. destruct Hkx as [ Hnn Hkx ].
    apply andb_true_iff in Hp. destruct Hp as [ Hpx Hp ].
    cbn [fold_left]. unfold strip_element at 2. cbn [fst snd].
    rewrite (Hx _ Hkx Hpx), Hnn.
    rewrite (IH (i + 1) (out ++ [x])%list HF' Hk Hp).
    rewrite <- app_assoc. cbn [List.length app]. f_equal. lia.
Qed.

Lemma paths_unmatched_root (t : Trimmer) (pre : list string) (v : Value) :
  paths_unmatched t pre v = true -> matchesBlacklist t pre = false.
Proof.
  intros H. destruct v; simpl in H; apply andb_true_iff in H;
    destruct H as [ H _ ]; apply negb_true_iff in H; exact H.
Qed.

Lemma stripRecursive_fixed (t : Trimmer) :
  forall v pre,
    strip_keeps v = true ->
    paths_unmatched t pre v = true ->
    stripRecursive t v pre = v.
Proof.
  induction v as [ | b | r | s | m IH | l IH ] using Value_tree_ind;
    intros pre Hk Hp; pose proof (paths_unmatched_root t pre _ Hp) as Hroot.
  - simpl. rewrite Hroot. reflexivity.
  - simpl. rewrite Hroot. reflexivity.
  - simpl. rewrite Hroot. reflexivity.
  - simpl. rewrite Hroot. reflexivity.
  - rewrite stripRecursive_VObj by exact Hroot. f_equal.
    simpl in Hk. apply andb_true_iff in Hk. destruct Hk as [ Hu Hk ].
    simpl in Hp. rewrite Hroot in Hp. simpl in Hp.
    rewrite forallb_forall in Hk, Hp. rewrite Forall_forall in IH.
    rewrite (fold_map_set_rebuilds (strip_member t pre) m []);
      [ reflexivity | | exact Hu | reflexivity ].
    intros out kv Hin. unfold strip_member.
    specialize (Hk kv Hin). apply andb_true_iff in Hk. destruct Hk as [ Hnn Hkk ].
    rewrite (IH kv Hin _ Hkk (Hp kv Hin)), Hnn. reflexivity.
  - rewrite stripRecursive_VArr by exact Hroot. cbv zeta.
    simpl in Hk. apply andb_true_iff in Hk. destruct Hk as [ Hne Hk ].
    simpl in Hp. rewrite Hroot in Hp. simpl in Hp.
    rewrite (strip_elements_rebuild t pre l 0 [] IH Hk Hp). simpl.
    apply negb_true_iff in Hne. rewrite Hne. reflexivity.
Qed.

(** X4.  The stripper returns unchanged a document none of whose paths
    matches a rule, provided the document has no null member or element,
    no empty array and no key twice (what the stripper drops by itself). *)
Theorem stripper_leaves_unmatched_document :
  forall (t : Trimmer) (v : Value),
    strip_keeps v = true ->
    (forall pre, paths_unmatched t pre v = true -> stripRecursive t v pre = v)
    /\ (paths_unmatched t [] v = true -> stripBlacklisted t v = v).
Proof.
  intros t v Hk. split.
  - intros pre Hp. apply stripRecursive_fixed; assumption.
  - intros Hp. unfold stripBlacklisted.
    destruct (List.length (blacklistParts t) =? 0)%nat; [ reflexivity | ].
    apply stripRecursive_fixed; assumption.
Qed.

Lemma stripper_leaves_unmatched_document_witness :
  stripBlacklisted (New usersConfig) usersStripped = usersStripped.
Proof.
  apply (proj2 (stripper_leaves_unmatched_document (New usersConfig) usersStripped
                  eq_refl)).
  reflexivity.
Defined.

Lemma trim_elements_rebuild (t : Trimmer) (depth : Z) :
  forall l out,
    Forall (fun x => trimFields t x (depth + 1) = x) l ->
    forallb (fun x => not_nil x && negb (overFieldLimit t x)) l = true ->
    fold_left (trim_element t depth) l out = (out ++ l)%list.
Proof.
  induction l as [ | x l IH ]; intros out HF Hk; simpl.
  - rewrite app_nil_r. reflexivity.
  - inversion HF as [ | ? ? Hx HF' ]; subst.
    simpl in Hk. apply andb_true_iff in Hk. destruct Hk as [ Hkx Hk ].
    apply andb_true_iff in Hkx. destruct Hkx as [ Hnn Hov ].
    apply negb_true_iff in Hov.
    unfold trim_element at 2. rewrite Hx, Hnn, Hov.
    rewrite (IH _ HF' Hk), <- app_assoc. reflexivity.
Qed.

Lemma fits_depth (t : Trimmer) (v : Value) (depth : Z) :
  fits t v depth = true -> (depth >? MaxDepth (cfg t)) = false.
Proof.
  intros H.
  assert (Hd : (depth <=? MaxDepth (cfg t)) = true).
  { destruct v; simpl in H; apply andb_true_iff in H; destruct H as [ H _ ]; exact H. }
  apply Z.leb_le in Hd.
  destruct (Z.gtb_spec depth (MaxDepth (cfg t))); [ lia | reflexivity ].
Qed.

Lemma trimFields_fixed (t : Trimmer) :
  forall v depth, fits t v depth = true -> trimFields t v depth = v.
Proof.
  induction v as [ | b | r | s | m IH | l IH ] using Value_tree_ind;
    intros depth Hf; pose proof (fits_depth t _ depth Hf) as Hd.
  - simpl. rewrite Hd. reflexivity.
  - simpl. rewrite Hd. reflexivity.
  - simpl. rewrite Hd. reflexivity.
  - simpl. rewrite Hd. simpl in Hf. apply andb_true_iff in Hf.
    destruct Hf as [ _ Hs ]. apply Z.leb_le in Hs.
    destruct (Z.gtb_spec (len s) (FieldLimit (cfg t))); [ lia | reflexivity ].
  - rewrite trimFields_VObj by exact Hd. f_equal.
    simpl in Hf. apply andb_true_iff in Hf. destruct Hf as [ _ Hf ].
    apply andb_true_iff in Hf. destruct Hf as [ Hu Hk ].
    rewrite forallb_forall in Hk. rewrite Forall_forall in IH.
    rewrite (fold_map_set_rebuilds (trim_member t depth) m []);
      [ reflexivity | | exact Hu | reflexivity ].
    intros out kv Hin. unfold trim_member.
    specialize (Hk kv Hin). apply andb_true_iff in Hk. destruct Hk as [ Hk Hfit ].
    apply andb_true_iff in Hk. destruct Hk as [ Hnn Hov ].
    apply negb_true_iff in Hov.
    rewrite (IH kv Hin _ Hfit), Hnn, Hov. reflexivity.
  - rewrite trimFields_VArr by exact Hd. f_equal.
    simpl in Hf. apply andb_true_iff in Hf. destruct Hf as [ _ Hk ].
    rewrite (trim_elements_rebuild t depth l []); [ reflexivity | | ].
    + rewrite Forall_forall in *. rewrite forallb_forall in Hk.
      intros x Hin. apply (IH x Hin). specialize (Hk x Hin).
      apply andb_true_iff in Hk. destruct Hk as [ _ Hfit ]. exact Hfit.
    + rewrite forallb_forall in *. intros x Hin. specialize (Hk x Hin).
      apply andb_true_iff in Hk. destruct Hk as [ Hk _ ]. exact Hk.
Qed.

(** X5.  A document that fits (depth within [MaxDepth], strings within
    [FieldLimit], every child non-null and through the size test, no key
    twice) comes out of the field trimmer unchanged; and [Trim], with no
    blacklist and no hooks, returns the plain encoding of such a document
    when that encoding is within [TotalLimit]. *)
Theorem fitting_document_passes_through :
  forall (c : Config) (v : Value) (fuel : nat),
    fits (New c) v 1 = true ->
    trimFields (New c) v 1 = v
    /\ (Blacklist c = [] ->
        PreTrim (hooks c) = None ->
        PostTrim (hooks c) = None ->
        len (Json.Marshal v) <= TotalLimit (cfg (New c)) ->
        Trim (S fuel) (New c) (Some v) = Done (Some (Json.Marshal v), None)).
Proof.
  intros c v fuel Hf.
  pose proof (trimFields_fixed (New c) v 1 Hf) as Hfix.
  split; [ exact Hfix | ].
  intros Hbl Hpre Hpost Hlen.
  unfold Trim, stripBlacklisted. simpl blacklistParts. rewrite Hbl. simpl map.
  cbn [List.length Nat.eqb].
  assert (Hp : PreTrim (hooks (cfg (New c))) = Some (fun v => v)).
  { simpl. rewrite Hpre. reflexivity. }
  assert (Hq : PostTrim (hooks (cfg (New c))) = Some (fun v _ => v)).
  { simpl. rewrite Hpost. reflexivity. }
  rewrite Hp, Hfix, enforceTotal_S.
  assert (Hle : (len (Json.Marshal v) <=? TotalLimit (cfg (New c))) = true)
    by (apply Z.leb_le; exact Hlen).
  rewrite Hle, Hq.
  destruct (Z.gtb_spec (len (Json.Marshal v)) (TotalLimit (cfg (New c))));
    [ lia | reflexivity ].
Qed.

Lemma fitting_document_passes_through_witness :
  trimFields (New (zeroConfig [] false false)) usersStripped 1 = usersStripped
  /\ Trim 1 (New (zeroConfig [] false false)) (Some usersStripped)
     = Done (Some (Json.Marshal usersStripped), None).
Proof.
  split.
  - apply (proj1 (fitting_document_passes_through (zeroConfig [] false false)
                    usersStripped 0 eq_refl)).
  - apply (proj2 (fitting_document_passes_through (zeroConfig [] false false)
                    usersStripped 0 eq_refl)); try reflexivity.
    vm_compute. discriminate.
Defined.

(** ** Null members *)

Lemma no_nil_members_removed (t : Trimmer) : no_nil_members (removed t) = true.
Proof.
  unfold removed. destruct (ReplaceWithMarker (cfg t)); reflexivity.
Qed.

Lemma trimFields_no_nil_members (t : Trimmer) :
  forall v depth, no_nil_members (trimFields t v depth) = true.
Proof.
  induction v as [ | b | r | s | m IH | l IH ] using Value_tree_ind; intros depth.
  - simpl. destruct (depth >? MaxDepth (cfg t));
      [ apply no_nil_members_removed | reflexivity ].
  - simpl. destruct (depth >? MaxDepth (cfg t));
      [ apply no_nil_members_removed | reflexivity ].
  - simpl. destruct (depth >? MaxDepth (cfg t));
      [ apply no_nil_members_removed | reflexivity ].
  - destruct (trimFields_VStr_cases t s depth) as [ H | [ [H L] | [s' [H L]] ] ];
      rewrite H; [ apply no_nil_members_removed | reflexivity | reflexivity ].
  - destruct (depth >? MaxDepth (cfg t)) eqn:E.
    { rewrite trimFields_cut by (apply Z.gtb_gt; exact E).
      apply no_nil_members_removed. }
    rewrite trimFields_VObj by exact E. simpl.
    apply fold_left_forallb; [ | reflexivity ].
    eapply Forall_impl; [ | exact IH ].
    intros [k x] Hx out Hout. unfold trim_member. simpl in *.
    destruct (not_nil (trimFields t x (depth + 1))) eqn:N; [ | exact Hout ].
    destruct (overFieldLimit t (trimFields t x (depth + 1))).
    + destruct (ReplaceWithMarker (cfg t)); [ | exact Hout ].
      apply forallb_map_set; [ reflexivity | exact Hout ].
    + apply forallb_map_set; [ | exact Hout ]. simpl. rewrite N, Hx. reflexivity.
  - destruct (depth >? MaxDepth (cfg t)) eqn:E.
    { rewrite trimFields_cut by (apply Z.gtb_gt; exact E).
      apply no_nil_members_removed. }
    rewrite trimFields_VArr by exact E. simpl.
    apply fold_left_forallb; [ | reflexivity ].
    eapply Forall_impl; [ | exact IH ].
    intros x Hx out Hout. unfold trim_element.
    destruct (not_nil (trimFields t x (depth + 1))) eqn:N; [ | exact Hout ].
    destruct (overFieldLimit t (trimFields t x (depth + 1))).
    + destruct (ReplaceWithMarker (cfg t)); [ | exact Hout ].
      apply forallb_snoc; [ exact Hout | reflexivity ].
    + apply forallb_snoc; [ exact Hout | ]. rewrite N, Hx. reflexivity.
Qed.

Lemma forallb_map_delete {A : Type} (P : string * A -> bool) (k : string)
  (m : list (string * A)) :
  forallb P m = true -> forallb P (map_delete k m) = true.
Proof.
  induction m as [ | [k' x'] m IH ]; simpl; intros H; [ reflexivity | ].
  apply andb_true_iff in H. destruct H as [ H1 H2 ].
  destruct (String.eqb k k'); simpl; [ apply IH, H2 | ].
  rewrite H1, (IH H2). reflexivity.
Qed.

Lemma forallb_list_set (P : Value -> bool) (idx : nat) (x : Value) (l : list Value) :
  P x = true -> forallb P l = true -> forallb P (list_set idx x l) = true.
Proof.
  intros Hx. revert idx. induction l as [ | y l IH ]; intros idx H.
  - destruct idx; reflexivity.
  - simpl in H. apply andb_true_iff in H. destruct H as [ H1 H2 ].
    destruct idx as [ | idx ]; simpl.
    + rewrite Hx, H2. reflexivity.
    + rewrite H1, (IH idx H2). reflexivity.
Qed.

Lemma forallb_remove_at (P : Value -> bool) (idx : nat) (l : list Value) :
  forallb P l = true -> forallb P (remove_at idx l) = true.
Proof.
  unfold remove_at. revert idx. induction l as [ | y l IH ]; intros idx H.
  - destruct idx; reflexivity.
  - simpl in H. apply andb_true_iff in H. destruct H as [ H1 H2 ].
    destruct idx as [ | idx ]; simpl.
    + exact H2.
    + rewrite H1. apply (IH idx H2).
Qed.

Lemma applyRemoval_no_nil_members (t : Trimmer) (v : Value) (toRemove : string) :
  no_nil_members v = true -> no_nil_members (applyRemoval t v toRemove) = true.
Proof.
  intros H. destruct v as [ | b | r | s | m | l ]; try exact H; unfold applyRemoval.
  - destruct (negb (HasPrefix toRemove "idx:")); [ | exact H ].
    destruct (ReplaceWithMarker (cfg t) && _); simpl.
    + apply forallb_map_set; [ reflexivity | exact H ].
    + apply forallb_map_delete. exact H.
  - destruct (HasPrefix toRemove "idx:"); [ | exact H ].
    destruct (Sscanf_d (slice_from 4 toRemove)) as [ idx | ]; [ | exact H ].
    destruct ((idx >=? 0) && (idx <? Z.of_nat (List.length l))); [ | exact H ].
    destruct (ReplaceWithMarker (cfg t) && _); simpl.
    + apply forallb_list_set; [ reflexivity | exact H ].
    + apply forallb_remove_at. exact H.
Qed.

Lemma enforceTotal_no_nil_members (t : Trimmer) :
  forall fuel v v',
    no_nil_members v = true ->
    enforceTotal fuel t v = Done v' ->
    no_nil_members v' = true.
Proof.
  induction fuel as [ | fuel IH ]; intros v v' Hv H; [ discriminate | ].
  rewrite enforceTotal_S in H.
  destruct (len (Json.Marshal v) <=? TotalLimit (cfg t)).
  { inversion H; subst. exact Hv. }
  destruct (Strategy (cfg t)) as [ s | ]; [ | discriminate ].
  destruct (String.eqb (SelectNextToRemove s v) "").
  { inversion H; subst. exact Hv. }
  eapply IH; [ | exact H ]. apply applyRemoval_no_nil_members, Hv.
Qed.

(** X6.  Whatever the input and the configuration, no object member and no
    array element of the document that the field trimmer returns is null,
    at any level, and the total enforcer, under any strategy, keeps it
    so: a JSON null inside a container never reaches the output of the
    two stages (a document that is null as a whole is returned as it is). *)
Theorem no_null_inside_trimmed_document :
  forall (t : Trimmer) (v : Value) (depth : Z),
    no_nil_members (trimFields t v depth) = true
    /\ (forall fuel v',
           enforceTotal fuel t (trimFields t v depth) = Done v' ->
           no_nil_members v' = true).
Proof.
  intros t v depth. split.
  - apply trimFields_no_nil_members.
  - intros fuel v' H.
    eapply enforceTotal_no_nil_members; [ apply trimFields_no_nil_members | exact H ].
Qed.

Lemma no_null_inside_trimmed_document_witness :
  no_nil_members (VArr []) = true.
Proof.
  apply (proj2 (no_null_inside_trimmed_document (New markerConfig)
                  (VArr [VStr (repeat_byte "x" 20); VNil]) 1) 3%nat (VArr [])).
  vm_compute. reflexivity.
Defined.

(** ** The size estimate and [RemoveLargest] *)

Lemma len_nonneg (s : string) : 0 <= len s.
Proof.
  unfold len. lia.
Qed.

Lemma estimate_fold_elements (l : list Value) :
  Forall (fun x => 0 <= estimateSize x) l ->
  forall acc, acc <= fold_left (fun s sub => s + estimateSize sub + 1) l acc.
Proof.
  induction 1 as [ | a l Ha _ IH ]; intros acc; simpl; [ lia | ].
  specialize (IH (acc + estimateSize a + 1)). lia.
Qed.

Lemma estimate_fold_members (m : list (string * Value)) :
  Forall (fun kv => 0 <= estimateSize (snd kv)) m ->
  forall acc,
    acc <= fold_left
             (fun s (kv : string * Value) =>
                s + (len (fst kv) + 2 + 1) + estimateSize (snd kv) + 1)
             m acc.
Proof.
  induction 1 as [ | a m Ha _ IH ]; intros acc; simpl; [ lia | ].
  specialize (IH (acc + (len (fst a) + 2 + 1) + estimateSize (snd a) + 1)).
  pose proof (len_nonneg (fst a)). lia.
Qed.

Lemma estimateSize_nonneg : forall v, 0 <= estimateSize v.
Proof.
  induction v as [ | b | r | s | m IH | l IH ] using Value_tree_ind; simpl.
  - lia.
  - destruct b; lia.
  - lia.
  - pose proof (len_nonneg s). lia.
  - pose proof (estimate_fold_members m IH 2). lia.
  - pose proof (estimate_fold_elements l IH 2). lia.
Qed.

Lemma estimateSize_zero (v : Value) : estimateSize v <= 0 -> v = VNil.
Proof.
  destruct v as [ | b | r | s | m | l ]; simpl; intros H.
  - reflexivity.
  - destruct b; lia.
  - lia.
  - pose proof (len_nonneg s). lia.
  - assert (HF : Forall (fun kv : string * Value => 0 <= estimateSize (snd kv)) m).
    { apply Forall_forall. intros kv _. apply estimateSize_nonneg. }
    pose proof (estimate_fold_members m HF 2). lia.
  - assert (HF : Forall (fun x : Value => 0 <= estimateSize x) l).
    { apply Forall_forall. intros x _. apply estimateSize_nonneg. }
    pose proof (estimate_fold_elements l HF 2). lia.
Qed.

Lemma largest_idx_spec (l : list Value) :
  forall (i mi ms : Z) (r : Z * Z * Z),
    r = fold_left
          (fun (acc : Z * Z * Z) (item : Value) =>
             let '(i, maxIdx, maxSize) := acc in
             let sz := estimateSize item in
             if sz >? maxSize then (i + 1, i, sz)
             else (i + 1, maxIdx, maxSize))
          l (i, mi, ms) ->
    (snd (fst r) = mi /\ Forall (fun x => estimateSize x <= ms) l)
    \/ (exists j,
           (j < List.length l)%nat
           /\ snd (fst r) = i + Z.of_nat j
           /\ ms < estimateSize (nth j l VNil)
           /\ (forall j', (j' < j)%nat ->
                           estimateSize (nth j' l VNil) < estimateSize (nth j l VNil))
           /\ Forall (fun x => estimateSize x <= estimateSize (nth j l VNil)) l).
Proof.
  induction l as [ | x l IH ]; intros i mi ms r Hr.
  - left. subst r. split; [ reflexivity | constructor ].
  - cbn [fold_left] in Hr. cbv zeta in Hr.
    destruct (Z.gtb_spec (estimateSize x) ms) as [ Hgt | Hle ].
    + destruct (IH (i + 1) i (estimateSize x) r Hr)
        as [ [ Hidx Hall ] | [ j [ Hj [ Hidx [ Hbig [ Hbefore Hall ] ] ] ] ] ].
      * right. exists 0%nat. simpl. repeat split.
        -- lia.
        -- lia.
        -- lia.
        -- intros j' Hj'. lia.
        -- constructor; [ lia | exact Hall ].
      * right. exists (S j). simpl. repeat split.
        -- lia.
        -- lia.
        -- lia.
        -- intros [ | j' ] Hj'; [ lia | apply Hbefore; lia ].
        -- constructor; [ lia | exact Hall ].
    + destruct (IH (i + 1) mi ms r Hr)
        as [ [ Hidx Hall ] | [ j [ Hj [ Hidx [ Hbig [ Hbefore Hall ] ] ] ] ] ].
      * left. split; [ exact Hidx | constructor; [ lia | exact Hall ] ].
      * right. exists (S j). simpl. repeat split.
        -- lia.
        -- lia.
        -- lia.
        -- intros [ | j' ] Hj'; [ lia | apply Hbefore; lia ].
        -- constructor; [ lia | exact Hall ].
Qed.

Lemma largest_key_spec (m : list (string * Value)) :
  forall (acc r : string * Z),
    r = fold_left
          (fun (acc : string * Z) (kv : string * Value) =>
             let sz := estimateSize (snd kv) in
             if sz >? snd acc then (fst kv, sz) else acc)
          m acc ->
    (fst r = fst acc /\ Forall (fun kv => estimateSize (snd kv) <= snd acc) m)
    \/ (exists x,
           In (fst r, x) m
           /\ snd acc < estimateSize x
           /\ Forall (fun kv => estimateSize (snd kv) <= estimateSize x) m).
Proof.
  induction m as [ | [k x] m IH ]; intros acc r Hr.
  - left. subst r. split; [ reflexivity | constructor ].
  - cbn [fold_left] in Hr. cbv zeta in Hr. cbn [fst snd] in Hr.
    destruct (Z.gtb_spec (estimateSize x) (snd acc)) as [ Hgt | Hle ].
    + destruct (IH (k, estimateSize x) r Hr)
        as [ [ Hkey Hall ] | [ y [ Hin [ Hbig Hall ] ] ] ]; cbn [fst snd] in *.
      * right. exists x. repeat split.
        -- left. rewrite Hkey. reflexivity.
        -- lia.
        -- constructor; [ simpl; lia | exact Hall ].
      * right. exists y. repeat split.
        -- right. exact Hin.
        -- lia.
        -- constructor; [ simpl; lia | exact Hall ].
    + destruct (IH acc r Hr)
        as [ [ Hkey Hall ] | [ y [ Hin [ Hbig Hall ] ] ] ].
      * left. split; [ exact Hkey | constructor; [ simpl; lia | exact Hall ] ].
      * right. exists y. repeat split.
        -- right. exact Hin.
        -- lia.
        -- constructor; [ simpl; lia | exact Hall ].
Qed.

(** X7.  [RemoveLargest] names a child with the largest size estimate.  On
    an array it answers the empty token only when every element is null
    (estimate 0), and otherwise the token of the first index whose estimate
    is the largest.  On an object it answers with a key whose member has
    the largest estimate, unless every member is null, where it answers
    the empty token. *)
Theorem RemoveLargest_names_largest :
  (forall l : list Value,
      (RemoveLargest_select (VArr l) = "" /\ Forall (fun x => x = VNil) l)
      \/ (exists i,
             (i < List.length l)%nat
             /\ RemoveLargest_select (VArr l) = "idx:" ++ itoa i
             /\ Forall (fun x => estimateSize x <= estimateSize (nth i l VNil)) l
             /\ (forall j, (j < i)%nat ->
                            estimateSize (nth j l VNil) < estimateSize (nth i l VNil))))
  /\ (forall m : list (string * Value),
         (RemoveLargest_select (VObj m) = "" /\ Forall (fun kv => snd kv = VNil) m)
         \/ (exists x,
                In (RemoveLargest_select (VObj m), x) m
                /\ 0 < estimateSize x
                /\ Forall (fun kv => estimateSize (snd kv) <= estimateSize x) m)).
Proof.
  split.
  - intros l. unfold RemoveLargest_select.
    pose proof (largest_idx_spec l 0 (-1) 0 _ eq_refl) as H.
    cbv zeta in H |- *.
    set (r := snd (fst (fold_left _ l (0, -1, 0)))) in *.
    destruct H as [ [ Hidx Hall ] | [ j [ Hj [ Hidx [ Hbig [ Hbefore Hall ] ] ] ] ] ].
    + left. rewrite Hidx. split; [ reflexivity | ].
      eapply Forall_impl; [ | exact Hall ]. intros x Hx. apply estimateSize_zero, Hx.
    + right. exists j. rewrite Hidx.
      destruct (Z.geb_spec (0 + Z.of_nat j) 0) as [ _ | Hneg ]; [ | lia ].
      rewrite Sprintf_d_index by lia.
      replace (Z.to_nat (0 + Z.of_nat j)) with j by lia.
      repeat split; assumption.
  - intros m. unfold RemoveLargest_select.
    destruct (largest_key_spec m ("", 0) _ eq_refl)
      as [ [ Hkey Hall ] | [ x [ Hin [ Hbig Hall ] ] ] ]; cbn [fst snd] in *.
    + left. split; [ exact Hkey | ].
      eapply Forall_impl; [ | exact Hall ]. intros kv Hkv. apply estimateSize_zero, Hkv.
    + right. exists x. repeat split; assumption.
Qed.

(** ** [PrioritizeKeys] *)

Lemma In_keys_map_set_same {A : Type} (k : string) (x : A) (c : list (string * A)) :
  In k (map fst (map_set k x c)).
Proof.
  induction c as [ | [k' x'] c IH ]; simpl.
  - left. reflexivity.
  - destruct (String.eqb k k'); simpl; [ left; reflexivity | right; exact IH ].
Qed.

Lemma In_keys_map_set_old {A : Type} (k k2 : string) (x : A) (c : list (string * A)) :
  In k (map fst c) -> In k (map fst (map_set k2 x c)).
Proof.
  induction c as [ | [k' x'] c IH ]; simpl; intros H; [ destruct H | ].
  destruct (String.eqb k2 k') eqn:E; simpl.
  - apply String.eqb_eq in E. subst k'. exact H.
  - destruct H as [ H | H ]; [ left; exact H | right; apply IH, H ].
Qed.

Lemma candidates_are_not_kept (KeepKeys : list string) (m : list (string * Value)) :
  forall c k,
    In k (map fst (fold_left
                     (fun c (kv : string * Value) =>
                        if isKeepKey KeepKeys (fst kv) then c
                        else map_set (fst kv) (snd kv) c)
                     m c)) ->
    In k (map fst c) \/ (In k (map fst m) /\ isKeepKey KeepKeys k = false).
Proof.
  induction m as [ | [k' x] m IH ]; simpl; intros c k H.
  - left. exact H.
  - apply IH in H. destruct H as [ H | [ H1 H2 ] ]; [ | right; split; [ right | ]; assumption ].
    destruct (isKeepKey KeepKeys k') eqn:E; [ left; exact H | ].
    apply In_keys_map_set in H.
    destruct H as [ -> | H ]; [ right; split; [ left; reflexivity | exact E ] | left; exact H ].
Qed.

Lemma candidates_grow (KeepKeys : list string) (m : list (string * Value)) :
  forall c k,
    In k (map fst c) ->
    In k (map fst (fold_left
                     (fun c (kv : string * Value) =>
                        if isKeepKey KeepKeys (fst kv) then c
                        else map_set (fst kv) (snd kv) c)
                     m c)).
Proof.
  induction m as [ | [k' x] m IH ]; simpl; intros c k H; [ exact H | ].
  apply IH. destruct (isKeepKey KeepKeys k'); [ exact H | ].
  apply In_keys_map_set_old, H.
Qed.

Lemma candidates_hold_others (KeepKeys : list string) (m : list (string * Value)) :
  forall c kv,
    In kv m -> isKeepKey KeepKeys (fst kv) = false ->
    In (fst kv) (map fst (fold_left
                            (fun c (kv : string * Value) =>
                               if isKeepKey KeepKeys (fst kv) then c
                               else map_set (fst kv) (snd kv) c)
                            m c)).
Proof.
  induction m as [ | [k' x] m IH ]; intros c kv Hin Hk; [ destruct Hin | ].
  destruct Hin as [ <- | Hin ]; cbn [fold_left].
  - cbn [fst snd] in *. rewrite Hk. apply candidates_grow, In_keys_map_set_same.
  - apply IH; assumption.
Qed.

Lemma candidates_empty_when_all_kept (KeepKeys : list string)
  (m : list (string * Value)) :
  (forall kv, In kv m -> isKeepKey KeepKeys (fst kv) = true) ->
  forall c,
    fold_left
      (fun c (kv : string * Value) =>
         if isKeepKey KeepKeys (fst kv) then c
         else map_set (fst kv) (snd kv) c)
      m c = c.
Proof.
  induction m as [ | kv m IH ]; intros Hall c; [ reflexivity | ].
  cbn [fold_left]. rewrite (Hall kv) by (left; reflexivity).
  apply IH. intros kv' Hin. apply Hall. right. exact Hin.
Qed.

Lemma prioritize_spares_keep_keys (KeepKeys : list string)
  (fallback : Value -> string) (m : list (string * Value)) :
  names_a_child fallback ->
  KeepKeys <> [] ->
  forall select,
    select = (fun v =>
                if Z.of_nat (List.length KeepKeys) =? 0 then fallback v
                else match v with
                     | VObj vv =>
                         let candidates :=
                           fold_left
                             (fun c (kv : string * Value) =>
                                if isKeepKey KeepKeys (fst kv) then c
                                else map_set (fst kv) (snd kv) c)
                             vv [] in
                         if Z.of_nat (List.length candidates) >? 0
                         then fallback (VObj candidates)
                         else fallback v
                     | _ => ""
                     end) ->
    ((exists kv, In kv m /\ isKeepKey KeepKeys (fst kv) = false) ->
     select (VObj m) = ""
     \/ (In (select (VObj m)) (map fst m)
         /\ isKeepKey KeepKeys (select (VObj m)) = false))
    /\ ((forall kv, In kv m -> isKeepKey KeepKeys (fst kv) = true) ->
        select (VObj m) = fallback (VObj m))
    /\ (forall l, select (VArr l) = "").
Proof.
  intros [ Ho _ ] Hne select ->.
  assert (Hlen : (Z.of_nat (List.length KeepKeys) =? 0) = false).
  { destruct KeepKeys; [ contradiction | reflexivity ]. }
  rewrite Hlen. split; [ | split ].
  - intros [ kv [ Hin Hk ] ]. cbv zeta.
    pose proof (candidates_hold_others KeepKeys m [] kv Hin Hk) as Hc.
    match goal with
    | |- context [VObj ?c] => set (cand := c) in *
    end.
    assert (Hpos : (Z.of_nat (List.length cand) >? 0) = true).
    { destruct cand; [ destruct Hc | reflexivity ]. }
    rewrite Hpos.
    destruct (Ho cand) as [ H | H ]; [ left; exact H | right ].
    apply candidates_are_not_kept in H. destruct H as [ [] | H ]. exact H.
  - intros Hall. cbv zeta.
    rewrite (candidates_empty_when_all_kept KeepKeys m Hall []). reflexivity.
  - reflexivity.
Qed.

(** X8.  [PrioritizeKeys] with keep keys and a built-in fallback: as long
    as the object has a member whose key is not a keep key, the key it
    names (if any) is a key of the object that is not a keep key; when
    every member is kept it answers as the fallback does on the whole
    object; and on an array it names nothing. *)
Theorem PrioritizeKeys_spares_keep_keys :
  forall (KeepKeys : list string) (Fallback : option TruncStrategy)
         (m : list (string * Value)),
    KeepKeys <> [] ->
    built_in (PrioritizeKeys KeepKeys Fallback) = true ->
    ((exists kv, In kv m /\ isKeepKey KeepKeys (fst kv) = false) ->
     SelectNextToRemove (PrioritizeKeys KeepKeys Fallback) (VObj m) = ""
     \/ (In (SelectNextToRemove (PrioritizeKeys KeepKeys Fallback) (VObj m))
            (map fst m)
         /\ isKeepKey KeepKeys
              (SelectNextToRemove (PrioritizeKeys KeepKeys Fallback) (VObj m))
            = false))
    /\ ((forall kv, In kv m -> isKeepKey KeepKeys (fst kv) = true) ->
        SelectNextToRemove (PrioritizeKeys KeepKeys Fallback) (VObj m)
        = match Fallback with
          | Some f => SelectNextToRemove f (VObj m)
          | None => FIFO_select (VObj m)
          end)
    /\ (forall l,
           SelectNextToRemove (PrioritizeKeys KeepKeys Fallback) (VArr l) = "").
Proof.
  intros KeepKeys [ f | ] m Hne Hb.
  - simpl in Hb.
    exact (prioritize_spares_keep_keys KeepKeys (SelectNextToRemove f) m
             (built_in_names_a_child f Hb) Hne _ eq_refl).
  - exact (prioritize_spares_keep_keys KeepKeys FIFO_select m
             FIFO_names_a_child Hne _ eq_refl).
Qed.

Lemma PrioritizeKeys_spares_keep_keys_witness :
  SelectNextToRemove (PrioritizeKeys ["id"] None)
    (VObj [("id", VStr "1"); ("big", VStr "xxxx"); ("small", VStr "2")]) = ""
  \/ (In (SelectNextToRemove (PrioritizeKeys ["id"] None)
            (VObj [("id", VStr "1"); ("big", VStr "xxxx"); ("small", VStr "2")]))
         (map fst [("id", VStr "1"); ("big", VStr "xxxx"); ("small", VStr "2")])
      /\ isKeepKey ["id"]
           (SelectNextToRemove (PrioritizeKeys ["id"] None)
              (VObj [("id", VStr "1"); ("big", VStr "xxxx"); ("small", VStr "2")]))
         = false).
Proof.
  apply (proj1 (PrioritizeKeys_spares_keep_keys ["id"] None
                  [("id", VStr "1"); ("big", VStr "xxxx"); ("small", VStr "2")]
                  ltac:(discriminate) eq_refl)).
  exists ("big", VStr "xxxx"). split; [ right; left; reflexivity | reflexivity ].
Defined.

(** ** What the total enforcer does to an object *)

Lemma In_map_delete {A : Type} (k k2 : string) (x : A) (m : list (string * A)) :
  In (k, x) (map_delete k2 m) -> In (k, x) m.
Proof.
  induction m as [ | [k' x'] m IH ]; simpl; intros H; [ exact H | ].
  destruct (String.eqb k2 k'); simpl in H.
  - right. apply IH, H.
  - destruct H as [ H | H ]; [ left; exact H | right; apply IH, H ].
Qed.

Lemma applyRemoval_object (t : Trimmer) (m : list (string * Value)) (toRemove : string) :
  exists m',
    applyRemoval t (VObj m) toRemove = VObj m'
    /\ (forall k x, In (k, x) m' ->
                    In (k, x) m \/ (x = VStr Marker /\ ReplaceWithMarker (cfg t) = true)).
Proof.
  unfold applyRemoval.
  destruct (negb (HasPrefix toRemove "idx:")); [ | eauto ].
  destruct (ReplaceWithMarker (cfg t)) eqn:HM; simpl andb.
  - destruct (negb _).
    + eexists. split; [ reflexivity | ]. intros k x Hin.
      apply In_map_set in Hin. destruct Hin as [ [ _ -> ] | Hin ]; auto.
    + eexists. split; [ reflexivity | ]. intros k x Hin.
      left. eapply In_map_delete, Hin.
  - eexists. split; [ reflexivity | ]. intros k x Hin.
    left. eapply In_map_delete, Hin.
Qed.

Lemma enforceTotal_object (t : Trimmer) :
  forall fuel m v',
    enforceTotal fuel t (VObj m) = Done v' ->
    exists m',
      v' = VObj m'
      /\ (forall k x, In (k, x) m' ->
                      In (k, x) m
                      \/ (x = VStr Marker /\ ReplaceWithMarker (cfg t) = true)).
Proof.
  induction fuel as [ | fuel IH ]; intros m v' H; [ discriminate | ].
  rewrite enforceTotal_S in H.
  destruct (len (Json.Marshal (VObj m)) <=? TotalLimit (cfg t)).
  { inversion H. eauto. }
  destruct (Strategy (cfg t)) as [ s | ]; [ | discriminate ].
  destruct (String.eqb (SelectNextToRemove s (VObj m)) "").
  { inversion H. eauto. }
  destruct (applyRemoval_object t m (SelectNextToRemove s (VObj m)))
    as [ m1 [ E1 K1 ] ].
  rewrite E1 in H. destruct (IH m1 v' H) as [ m2 [ E2 K2 ] ].
  exists m2. split; [ exact E2 | ].
  intros k x Hin. destruct (K2 k x Hin) as [ Hin1 | Hmark ]; [ | right; exact Hmark ].
  apply K1, Hin1.
Qed.

(** X9.  Whatever the strategy, the total enforcer only removes or
    redacts: started on an object it ends with an object each of whose
    members is a member of the initial object, unchanged under its key,
    or holds the marker; and without [ReplaceWithMarker] every member it
    ends with is a member of the initial object. *)
Theorem enforcer_only_removes_or_redacts :
  forall (fuel : nat) (t : Trimmer) (m : list (string * Value)) (v' : Value),
    enforceTotal fuel t (VObj m) = Done v' ->
    exists m',
      v' = VObj m'
      /\ (forall k x, In (k, x) m' -> In (k, x) m \/ x = VStr Marker)
      /\ (ReplaceWithMarker (cfg t) = false ->
          forall k x, In (k, x) m' -> In (k, x) m).
Proof.
  intros fuel t m v' H.
  destruct (enforceTotal_object t fuel m v' H) as [ m' [ E K ] ].
  exists m'. split; [ exact E | split ].
  - intros k x Hin. destruct (K k x Hin) as [ L | [ R _ ] ]; auto.
  - intros HM k x Hin. destruct (K k x Hin) as [ L | [ _ R ] ]; [ exact L | congruence ].
Qed.

(** ** Scalars at the root *)

Lemma scalar_stays_scalar (t : Trimmer) (v : Value) (depth : Z) :
  is_scalar v = true -> is_scalar (trimFields t v depth) = true.
Proof.
  intros H. destruct v as [ | b | r | s | m | l ]; try discriminate.
  - simpl. destruct (depth >? MaxDepth (cfg t)); [ | reflexivity ].
    unfold removed. destruct (ReplaceWithMarker (cfg t)); reflexivity.
  - simpl. destruct (depth >? MaxDepth (cfg t)); [ | reflexivity ].
    unfold removed. destruct (ReplaceWithMarker (cfg t)); reflexivity.
  - simpl. destruct (depth >? MaxDepth (cfg t)); [ | reflexivity ].
    unfold removed. destruct (ReplaceWithMarker (cfg t)); reflexivity.
  - destruct (trimFields_VStr_cases t s depth) as [ E | [ [ E _ ] | [ s' [ E _ ] ] ] ];
      rewrite E; try reflexivity.
    unfold removed. destruct (ReplaceWithMarker (cfg t)); reflexivity.
Qed.

Lemma stripBlacklisted_scalar (t : Trimmer) (v : Value) :
  is_scalar v = true -> stripBlacklisted t v = v.
Proof.
  intros H. unfold stripBlacklisted.
  destruct (List.length (blacklistParts t) =? 0)%nat; [ reflexivity | ].
  destruct v; try discriminate; reflexivity.
Qed.

Lemma enforceTotal_scalar (t : Trimmer) (s : TruncStrategy) (v : Value) (fuel : nat) :
  Strategy (cfg t) = Some s ->
  built_in s = true ->
  is_scalar v = true ->
  enforceTotal (S fuel) t v = Done v.
Proof.
  intros Hs Hb Hv. rewrite enforceTotal_S, Hs.
  destruct (len (Json.Marshal v) <=? TotalLimit (cfg t)); [ reflexivity | ].
  pose proof (built_in_names_a_child s Hb) as [ _ [ _ Hsc ] ].
  specialize (Hsc v). destruct v; try discriminate; rewrite Hsc; reflexivity.
Qed.

Lemma plain_config_New (c : Config) :
  plain_config c = true ->
  (exists s, Strategy (cfg (New c)) = Some s /\ built_in s = true)
  /\ PreTrim (hooks (cfg (New c))) = Some (fun v => v)
  /\ PostTrim (hooks (cfg (New c))) = Some (fun v _ => v).
Proof.
  unfold plain_config. intros H. apply andb_true_iff in H. destruct H as [ Hs Hh ].
  simpl.
  destruct (PreTrim (hooks c)); [ discriminate | ].
  destruct (PostTrim (hooks c)); [ discriminate | ].
  split; [ | split; reflexivity ].
  destruct (Strategy c) as [ s | ]; eauto.
Qed.

(** X10.  A document that is a bare scalar is beyond the total enforcer:
    with a strategy of the package the loop returns it unchanged at its
    first turn, so [Trim] (no hooks) answers with the encoding of what the
    field trimmer made of the scalar when that is within [TotalLimit], and
    with [ErrCannotTrim] otherwise. *)
Theorem scalar_document_trimmed_or_refused :
  forall (c : Config) (v : Value) (fuel : nat),
    plain_config c = true ->
    is_scalar v = true ->
    Trim (S fuel) (New c) (Some v)
    = Done (if len (Json.Marshal (trimFields (New c) v 1)) >? TotalLimit (cfg (New c))
            then (None, Some ErrCannotTrim)
            else (Some (Json.Marshal (trimFields (New c) v 1)), None)).
Proof.
  intros c v fuel Hc Hv.
  destruct (plain_config_New c Hc) as [ [ s [ Hs Hb ] ] [ Hpre Hpost ] ].
  unfold Trim. rewrite Hpre, Hpost, (stripBlacklisted_scalar _ v Hv).
  rewrite (enforceTotal_scalar (New c) s _ fuel Hs Hb (scalar_stays_scalar _ v 1 Hv)).
  destruct (len (Json.Marshal (trimFields (New c) v 1)) >? TotalLimit (cfg (New c)));
    reflexivity.
Qed.

Lemma scalar_document_trimmed_or_refused_witness :
  Trim 1 (New cannotTrimConfig) (Some cannotTrimInput)
  = Done (None, Some ErrCannotTrim).
Proof.
  exact (scalar_document_trimmed_or_refused cannotTrimConfig cannotTrimInput 0
           eq_refl eq_refl).
Defined.

Lemma enforcer_only_removes_or_redacts_witness :
  exists m',
    VObj [("keep", VStr "me"); ("drop", VStr Marker)] = VObj m'
    /\ (forall k x, In (k, x) m' -> In (k, x) replaceInput \/ x = VStr Marker)
    /\ (ReplaceWithMarker (cfg (New replaceConfig)) = false ->
        forall k x, In (k, x) m' -> In (k, x) replaceInput).
Proof.
  apply (enforcer_only_removes_or_redacts 3 (New replaceConfig) replaceInput).
  vm_compute. reflexivity.
Defined.

(** ** Trimmers built by [New] *)

Lemma enforceTotal_no_panic (t : Trimmer) :
  Strategy (cfg t) <> None ->
  forall fuel v, enforceTotal fuel t v <> Panic.
Proof.
  intros Hs. induction fuel as [ | fuel IH ]; intros v; [ discriminate | ].
  rewrite enforceTotal_S.
  destruct (len (Json.Marshal v) <=? TotalLimit (cfg t)); [ discriminate | ].
  destruct (Strategy (cfg t)) as [ s | ]; [ | contradiction ].
  destruct (String.eqb (SelectNextToRemove s v) ""); [ discriminate | apply IH ].
Qed.

(** X11.  A trimmer built by [New] has a strategy and both hooks, whatever
    the configuration: [Trim] never ends in a call through nil.  And [New]
    changes nothing in a configuration it has already filled. *)
Theorem New_trimmer_never_panics :
  forall (c : Config) (fuel : nat) (decoded : option Value),
    Trim fuel (New c) decoded <> Panic
    /\ New (cfg (New c)) = New c.
Proof.
  intros c fuel decoded. split.
  - unfold Trim. destruct decoded as [ v | ]; [ | discriminate ].
    assert (Hpre : exists f, PreTrim (hooks (cfg (New c))) = Some f).
    { simpl. destruct (PreTrim (hooks c)); eauto. }
    assert (Hpost : exists f, PostTrim (hooks (cfg (New c))) = Some f).
    { simpl. destruct (PostTrim (hooks c)); eauto. }
    destruct Hpre as [ pre Hpre ]. destruct Hpost as [ post Hpost ].
    rewrite Hpre, Hpost.
    pose proof (enforceTotal_no_panic (New c)) as Hnp.
    assert (Hs : Strategy (cfg (New c)) <> None).
    { simpl. destruct (Strategy c); discriminate. }
    specialize (Hnp Hs fuel (trimFields (New c) (pre (stripBlacklisted (New c) v)) 1)).
    destruct (enforceTotal fuel (New c) _) as [ v' | | ];
      [ | contradiction | discriminate ].
    destruct (len (Json.Marshal (post v' None)) >? TotalLimit (cfg (New c)));
      discriminate.
  - unfold New. cbn [cfg FieldLimit TotalLimit MaxDepth Strategy Blacklist hooks
                     PreTrim PostTrim TruncateStrings ReplaceWithMarker].
    destruct (FieldLimit c =? 0) eqn:E1; [ | rewrite E1 ];
      destruct (TotalLimit c =? 0) eqn:E2; try rewrite E2;
      destruct (MaxDepth c =? 0) eqn:E3; try rewrite E3;
      destruct (Strategy c); destruct (PreTrim (hooks c));
      destruct (PostTrim (hooks c)); reflexivity.
Qed.

(** ** [Trim] returns *)

Lemma keys_of_trim_members (t : Trimmer) (depth : Z) (P : string -> bool)
  (m : list (string * Value)) :
  forallb (fun kv => P (fst kv)) m = true ->
  forall acc : list (string * Value),
    forallb (fun kv => P (fst kv)) acc = true ->
    forallb (fun kv => P (fst kv)) (fold_left (trim_member t depth) m acc) = true.
Proof.
  intros Hm. apply fold_left_forallb.
  rewrite forallb_forall in Hm. apply Forall_forall. intros kv Hin out Hout.
  unfold trim_member. destruct (not_nil _); [ | exact Hout ].
  destruct (overFieldLimit _ _).
  - destruct (ReplaceWithMarker (cfg t)); [ | exact Hout ].
    apply forallb_map_set; [ simpl; apply (Hm kv Hin) | exact Hout ].
  - apply forallb_map_set; [ simpl; apply (Hm kv Hin) | exact Hout ].
Qed.

Lemma keys_of_strip_members (t : Trimmer) (pre : list string) (P : string -> bool)
  (m : list (string * Value)) :
  forallb (fun kv => P (fst kv)) m = true ->
  forall acc : list (string * Value),
    forallb (fun kv => P (fst kv)) acc = true ->
    forallb (fun kv => P (fst kv)) (fold_left (strip_member t pre) m acc) = true.
Proof.
  intros Hm. apply fold_left_forallb.
  rewrite forallb_forall in Hm. apply Forall_forall. intros kv Hin out Hout.
  unfold strip_member. destruct (not_nil _); [ | exact Hout ].
  apply forallb_map_set; [ simpl; apply (Hm kv Hin) | exact Hout ].
Qed.

Lemma no_idx_key_trimFields (t : Trimmer) (v : Value) (depth : Z) :
  no_idx_key v = true -> no_idx_key (trimFields t v depth) = true.
Proof.
  intros H. destruct (depth >? MaxDepth (cfg t)) eqn:E.
  { rewrite trimFields_cut by (apply Z.gtb_gt; exact E).
    unfold removed. destruct (ReplaceWithMarker (cfg t)); reflexivity. }
  destruct v as [ | b | r | s | m | l ].
  - simpl. rewrite E. reflexivity.
  - simpl. rewrite E. reflexivity.
  - simpl. rewrite E. reflexivity.
  - destruct (trimFields_VStr_cases t s depth) as [ H1 | [ [ H1 _ ] | [ s' [ H1 _ ] ] ] ];
      rewrite H1; try reflexivity.
    unfold removed. destruct (ReplaceWithMarker (cfg t)); reflexivity.
  - rewrite trimFields_VObj by exact E. simpl.
    apply (keys_of_trim_members t depth (fun k => negb (HasPrefix k "idx:")));
      [ exact H | reflexivity ].
  - rewrite trimFields_VArr by exact E. reflexivity.
Qed.

Lemma no_idx_key_stripBlacklisted (t : Trimmer) (v : Value) :
  no_idx_key v = true -> no_idx_key (stripBlacklisted t v) = true.
Proof.
  intros H. unfold stripBlacklisted.
  destruct (List.length (blacklistParts t) =? 0)%nat; [ exact H | ].
  assert (E : matchesBlacklist t [] = false) by reflexivity.
  destruct v as [ | b | r | s | m | l ]; try reflexivity.
  - rewrite stripRecursive_VObj by exact E. simpl.
    apply (keys_of_strip_members t [] (fun k => negb (HasPrefix k "idx:")));
      [ exact H | reflexivity ].
  - rewrite stripRecursive_VArr by exact E. cbv zeta.
    destruct (List.length _ =? 0)%nat; reflexivity.
Qed.

Lemma length_map_set {A : Type} (k : string) (x : A) (m : list (string * A)) :
  (List.length (map_set k x m) <= S (List.length m))%nat.
Proof.
  induction m as [ | [k' x'] m IH ]; simpl; [ lia | ].
  destruct (String.eqb k k'); simpl; lia.
Qed.

Lemma length_trim_members (t : Trimmer) (depth : Z) (m : list (string * Value)) :
  forall acc,
    (List.length (fold_left (trim_member t depth) m acc)
     <= List.length acc + List.length m)%nat.
Proof.
  induction m as [ | kv m IH ]; intros acc; simpl; [ lia | ].
  specialize (IH (trim_member t depth acc kv)).
  assert (H : (List.length (trim_member t depth acc kv) <= S (List.length acc))%nat).
  { unfold trim_member. destruct (not_nil _); [ | lia ].
    destruct (overFieldLimit _ _).
    - destruct (ReplaceWithMarker (cfg t)); [ apply length_map_set | lia ].
    - apply length_map_set. }
  lia.
Qed.

Lemma length_trim_elements (t : Trimmer) (depth : Z) (l : list Value) :
  forall acc,
    (List.length (fold_left (trim_element t depth) l acc)
     <= List.length acc + List.length l)%nat.
Proof.
  induction l as [ | x l IH ]; intros acc; simpl; [ lia | ].
  specialize (IH (trim_element t depth acc x)).
  assert (H : (List.length (trim_element t depth acc x) <= S (List.length acc))%nat).
  { unfold trim_element. destruct (not_nil _); [ | lia ].
    destruct (overFieldLimit _ _).
    - destruct (ReplaceWithMarker (cfg t)); [ | lia ].
      rewrite length_app. simpl. lia.
    - rewrite length_app. simpl. lia. }
  lia.
Qed.

Lemma length_strip_members (t : Trimmer) (pre : list string)
  (m : list (string * Value)) :
  forall acc,
    (List.length (fold_left (strip_member t pre) m acc)
     <= List.length acc + List.length m)%nat.
Proof.
  induction m as [ | kv m IH ]; intros acc; simpl; [ lia | ].
  specialize (IH (strip_member t pre acc kv)).
  assert (H : (List.length (strip_member t pre acc kv) <= S (List.length acc))%nat).
  { unfold strip_member. destruct (not_nil _); [ apply length_map_set | lia ]. }
  lia.
Qed.

Lemma length_strip_elements (t : Trimmer) (pre : list string) (l : list Value) :
  forall acc,
    (List.length (snd (fold_left (strip_element t pre) l acc))
     <= List.length (snd acc) + List.length l)%nat.
Proof.
  induction l as [ | x l IH ]; intros acc; simpl; [ lia | ].
  specialize (IH (strip_element t pre acc x)).
  assert (H : (List.length (snd (strip_element t pre acc x))
               <= S (List.length (snd acc)))%nat).
  { unfold strip_element. simpl. destruct (not_nil _); [ | lia ].
    rewrite length_app. simpl. lia. }
  lia.
Qed.

Lemma entries_removed (t : Trimmer) : entries (removed t) = 0%nat.
Proof.
  unfold removed. destruct (ReplaceWithMarker (cfg t)); reflexivity.
Qed.

Lemma entries_trimFields (t : Trimmer) (v : Value) (depth : Z) :
  (entries (trimFields t v depth) <= entries v)%nat.
Proof.
  destruct (depth >? MaxDepth (cfg t)) eqn:E.
  { rewrite trimFields_cut by (apply Z.gtb_gt; exact E). rewrite entries_removed. lia. }
  destruct v as [ | b | r | s | m | l ].
  - simpl. rewrite E. simpl. lia.
  - simpl. rewrite E. simpl. lia.
  - simpl. rewrite E. simpl. lia.
  - destruct (trimFields_VStr_cases t s depth) as [ H1 | [ [ H1 _ ] | [ s' [ H1 _ ] ] ] ];
      rewrite H1; [ rewrite entries_removed | | ]; simpl; lia.
  - rewrite trimFields_VObj by exact E. simpl.
    pose proof (length_trim_members t depth m []). simpl in *. lia.
  - rewrite trimFields_VArr by exact E. simpl.
    pose proof (length_trim_elements t depth l []). simpl in *. lia.
Qed.

Lemma entries_stripBlacklisted (t : Trimmer) (v : Value) :
  (entries (stripBlacklisted t v) <= entries v)%nat.
Proof.
  unfold stripBlacklisted.
  destruct (List.length (blacklistParts t) =? 0)%nat; [ lia | ].
  assert (E : matchesBlacklist t [] = false) by reflexivity.
  destruct v as [ | b | r | s | m | l ]; try (simpl; lia).
  - rewrite stripRecursive_VObj by exact E. simpl.
    pose proof (length_strip_members t [] m []). simpl in *. lia.
  - rewrite stripRecursive_VArr by exact E. cbv zeta.
    pose proof (length_strip_elements t [] l (0, [])) as H. simpl in H.
    destruct (List.length _ =? 0)%nat; simpl; lia.
Qed.

Lemma weight_le_entries (v : Value) : (weight v <= 2 * entries v)%nat.
Proof.
  destruct v as [ | b | r | s | m | l ]; simpl; try lia.
  - induction m as [ | kv m IH ]; simpl; [ lia | ].
    unfold entry_weight at 1. destruct (is_Marker (snd kv)); lia.
  - induction l as [ | x l IH ]; simpl; [ lia | ].
    unfold entry_weight at 1. destruct (is_Marker x); lia.
Qed.

(** X12.  With a strategy of the package and no hooks, on a document that
    is not an object with a key starting with [idx:], [Trim] returns: for a
    root of [n] members or elements, [2n + 1] turns of the enforcer's loop
    are enough. *)
Theorem Trim_returns_without_idx_keys :
  forall (c : Config) (v : Value) (fuel : nat),
    plain_config c = true ->
    no_idx_key v = true ->
    (2 * entries v < fuel)%nat ->
    exists out err, Trim fuel (New c) (Some v) = Done (out, err).
Proof.
  intros c v fuel Hc Hkeys Hfuel.
  destruct (plain_config_New c Hc) as [ [ s [ Hs Hb ] ] [ Hpre Hpost ] ].
  unfold Trim. rewrite Hpre, Hpost.
  set (w := trimFields (New c) (stripBlacklisted (New c) v) 1).
  assert (Hw : no_idx_key w = true).
  { apply no_idx_key_trimFields, no_idx_key_stripBlacklisted, Hkeys. }
  assert (Hfw : (weight w < fuel)%nat).
  { pose proof (weight_le_entries w).
    pose proof (entries_trimFields (New c) (stripBlacklisted (New c) v) 1).
    pose proof (entries_stripBlacklisted (New c) v).
    fold w in H0. lia. }
  destruct (enforceTotal_enough_fuel (New c) s Hs (built_in_names_a_child s Hb)
              fuel w Hw Hfw) as [ v' [ Hv' _ ] ].
  rewrite Hv'.
  destruct (len (Json.Marshal v') >? TotalLimit (cfg (New c))); eauto.
Qed.

Lemma Trim_returns_without_idx_keys_witness :
  exists out err,
    Trim 5 (New replaceConfig) (Some (VObj replaceInput)) = Done (out, err).
Proof.
  apply (Trim_returns_without_idx_keys replaceConfig (VObj replaceInput) 5);
    [ reflexivity | reflexivity | ].
  vm_compute. lia.
Defined.

(** ** The estimate of a string *)

Lemma escape_ascii_nonempty (c : ascii) : (1 <= String.length (Json.escape_ascii c))%nat.
Proof.
  unfold Json.escape_ascii.
  repeat match goal with
         | |- context [if ?b then _ else _] => destruct b
         end; simpl; lia.
Qed.

Lemma escape_bytes_length (s : string) :
  forall copy drop : nat,
    (String.length s <= String.length (Json.escape_bytes copy drop s) + drop)%nat.
Proof.
  induction s as [ | c rest IH ]; intros copy drop;
    cbn [Json.escape_bytes String.length]; [ lia | ].
  destruct drop as [ | d ].
  - destruct copy as [ | n ].
    + destruct (N_of_ascii c <? 128)%N.
      * rewrite length_append. pose proof (escape_ascii_nonempty c).
        specialize (IH 0%nat 0%nat). lia.
      * destruct (Json.utf8_size c rest) as [ | n ].
        -- rewrite length_append. specialize (IH 0%nat 0%nat).
           cbn [String.length]. lia.
        -- destruct (Json.line_sep c rest) as [ d | ].
           ++ rewrite length_append. specialize (IH 0%nat 2%nat).
              cbn [String.length]. lia.
           ++ specialize (IH n 0%nat). cbn [String.length]. lia.
    + specialize (IH n 0%nat). cbn [String.length]. lia.
  - specialize (IH copy d). lia.
Qed.

Lemma string_encoding_lower_bound (s : string) :
  estimateSize (VStr s) <= len (Json.Marshal (VStr s)).
Proof.
  simpl. unfold Json.appendString, len. simpl String.length.
  rewrite length_append. simpl String.length.
  pose proof (escape_bytes_length s 0 0). lia.
Qed.

Lemma overFieldLimit_string (t : Trimmer) (s : string) :
  overFieldLimit t (VStr s) = (len s + 2 >? FieldLimit (cfg t)).
Proof.
  unfold overFieldLimit. pose proof (string_encoding_lower_bound s) as H.
  change (estimateSize (VStr s)) with (len s + 2) in *.
  destruct (Z.gtb_spec (len s + 2) (FieldLimit (cfg t))) as [ Hgt | Hle ];
    [ | reflexivity ].
  destruct (Z.gtb_spec (len (Json.Marshal (VStr s))) (FieldLimit (cfg t)));
    [ reflexivity | lia ].
Qed.

Lemma checked_children_strings (t : Trimmer) :
  forall v, children_checked t v = true -> string_members_within t v = true.
Proof.
  induction v as [ | b | r | s | m IH | l IH ] using Value_tree_ind;
    intros H; try reflexivity.
  - simpl in *. rewrite forallb_forall in *. rewrite Forall_forall in IH.
    intros kv Hin. specialize (H kv Hin). apply andb_true_iff in H.
    destruct H as [ Hc Hrec ]. rewrite (IH kv Hin Hrec), andb_true_r.
    destruct (snd kv) as [ | | | s | | ]; try reflexivity.
    unfold child_checked in Hc. rewrite overFieldLimit_string in Hc. simpl in Hc.
    apply orb_true_iff in Hc. apply orb_true_iff.
    destruct Hc as [ Hc | Hc ]; [ left; exact Hc | right ].
    apply negb_true_iff in Hc. apply Z.leb_le.
    destruct (Z.gtb_spec (len s + 2) (FieldLimit (cfg t))); [ discriminate | lia ].
  - simpl in *. rewrite forallb_forall in *. rewrite Forall_forall in IH.
    intros x Hin. specialize (H x Hin). apply andb_true_iff in H.
    destruct H as [ Hc Hrec ]. rewrite (IH x Hin Hrec), andb_true_r.
    destruct x as [ | | | s | | ]; try reflexivity.
    unfold child_checked in Hc. rewrite overFieldLimit_string in Hc. simpl in Hc.
    apply orb_true_iff in Hc. apply orb_true_iff.
    destruct Hc as [ Hc | Hc ]; [ left; exact Hc | right ].
    apply negb_true_iff in Hc. apply Z.leb_le.
    destruct (Z.gtb_spec (len s + 2) (FieldLimit (cfg t))); [ discriminate | lia ].
Qed.

(** X13.  For a string the estimate, its length plus two, never exceeds
    the length of its encoding, so the size test of a string child is
    decided by the estimate alone; hence every string that the field
    trimmer leaves as an object member or array element, at any level, is
    the marker or has at most [FieldLimit - 2] bytes. *)
Theorem string_estimate_is_lower_bound :
  forall (t : Trimmer) (s : string) (v : Value) (depth : Z),
    estimateSize (VStr s) <= len (Json.Marshal (VStr s))
    /\ overFieldLimit t (VStr s) = (len s + 2 >? FieldLimit (cfg t))
    /\ string_members_within t (trimFields t v depth) = true.
Proof.
  intros t s v depth. split; [ | split ].
  - apply string_encoding_lower_bound.
  - apply overFieldLimit_string.
  - apply checked_children_strings, trimFields_children_checked.
Qed.

(** ** Index tokens, printed and read back *)

Lemma itoa_read_back (i : nat) :
  exists c s d,
    itoa i = String c s
    /\ Json.in_range 48 57 c = true
    /\ take_number (String c s) = String c s
    /\ NilEmpty.uint_of_string (String c s) = Some d
    /\ Nat.of_uint d = i.
Proof.
  unfold itoa, NilZero.string_of_uint.
  pose proof (DecimalNat.Unsigned.of_to i) as Hof.
  destruct (Nat.to_uint i) as [ | d | d | d | d | d | d | d | d | d | d ] eqn:E;
    [ exists "0"%char, EmptyString, (D0 Nil); simpl in Hof;
      repeat split; try reflexivity; exact Hof | .. ].
  all: match goal with
       | |- exists c s d', NilEmpty.string_of_uint ?u = _ /\ _ =>
           destruct (first_byte_of_uint u ltac:(discriminate)) as [ c [ s [ Hs Hc ] ] ];
           pose proof (take_number_of_uint u) as Ht;
           pose proof (NilEmpty.usu u) as Hu;
           rewrite Hs in *;
           exists c, s, u; repeat split; assumption
       end.
Qed.

Lemma Sscanf_d_Sprintf_d (n : Z) : Sscanf_d (Sprintf_d n) = Some n.
Proof.
  unfold Sprintf_d. destruct (Z.ltb_spec n 0) as [ Hneg | Hpos ].
  - destruct (itoa_read_back (Z.to_nat (- n))) as [ c [ s [ d [ Hi [ Hc [ Ht [ Hu Hd ] ] ] ] ] ] ].
    rewrite Hi. unfold Sscanf_d.
    change ("-" ++ String c s) with (String "-"%char (String c s)).
    rewrite skip_spaces_at_token by (simpl; lia). cbv beta iota.
    simpl Ascii.eqb. cbv beta iota. unfold snd, fst.
    rewrite Ht, Hu, Hd. f_equal. lia.
  - rewrite Sscanf_d_itoa. f_equal. lia.
Qed.

(** X14.  The decimal text that the code prints for an integer is read
    back by its [Sscanf] as the same integer, negative ones included; so
    the token that a strategy prints for an index of the array makes the
    enforcer act on that very element: it is replaced by the marker, or,
    without [ReplaceWithMarker] or when it is the marker already, removed. *)
Theorem index_token_read_back :
  forall (n : Z) (t : Trimmer) (l : list Value) (i : nat),
    Sscanf_d (Sprintf_d n) = Some n
    /\ ((i < List.length l)%nat ->
        applyRemoval t (VArr l) ("idx:" ++ Sprintf_d (Z.of_nat i))
        = VArr (if ReplaceWithMarker (cfg t) && negb (is_Marker (nth i l VNil))
                then list_set i (VStr Marker) l
                else remove_at i l)).
Proof.
  intros n t l i. split; [ apply Sscanf_d_Sprintf_d | ].
  intros Hi. unfold applyRemoval.
  rewrite HasPrefix_idx, slice_from_idx, Sscanf_d_Sprintf_d.
  assert (Hrange : (Z.of_nat i >=? 0) && (Z.of_nat i <? Z.of_nat (List.length l)) = true).
  { apply andb_true_iff. split; [ apply Z.geb_le | apply Z.ltb_lt ]; lia. }
  rewrite Hrange, Nat2Z.id.
  destruct (ReplaceWithMarker (cfg t) && negb (is_Marker (nth i l VNil))); reflexivity.
Qed.

Lemma index_token_read_back_witness :
  applyRemoval (New orderConfig) (VArr orderInput) ("idx:" ++ Sprintf_d (Z.of_nat 1))
  = VArr orderOutput.
Proof.
  apply (proj2 (index_token_read_back 0 (New orderConfig) orderInput 1)).
  simpl. lia.
Defined.

(** ** Trimming twice *)

Lemma existsb_keys_map_set {A : Type} (f : string -> bool) (k : string) (x : A)
  (acc : list (string * A)) :
  f k = false ->
  existsb f (map fst acc) = false ->
  existsb f (map fst (map_set k x acc)) = false.
Proof.
  intros Hk. induction acc as [ | [k' x'] acc IH ]; simpl; intros H.
  - rewrite Hk. reflexivity.
  - apply orb_false_iff in H. destruct H as [ H1 H2 ].
    destruct (String.eqb k k'); simpl.
    + rewrite Hk, H2. reflexivity.
    + rewrite H1, (IH H2). reflexivity.
Qed.

Lemma unique_keys_map_set {A : Type} (k : string) (x : A) (acc : list (string * A)) :
  unique_keys (map fst acc) = true ->
  unique_keys (map fst (map_set k x acc)) = true.
Proof.
  induction acc as [ | [k' x'] acc IH ]; simpl; intros H; [ reflexivity | ].
  apply andb_true_iff in H. destruct H as [ H1 H2 ].
  destruct (String.eqb_spec k k') as [ -> | Hne ]; simpl.
  - rewrite H1, H2. reflexivity.
  - rewrite (IH H2), andb_true_r. apply negb_true_iff.
    apply existsb_keys_map_set; [ | apply negb_true_iff; exact H1 ].
    apply String.eqb_neq. congruence.
Qed.

Lemma unique_keys_trim_members (t : Trimmer) (depth : Z) (m : list (string * Value)) :
  forall acc,
    unique_keys (map fst acc) = true ->
    unique_keys (map fst (fold_left (trim_member t depth) m acc)) = true.
Proof.
  induction m as [ | kv m IH ]; intros acc H; simpl; [ exact H | ].
  apply IH. unfold trim_member. destruct (not_nil _); [ | exact H ].
  destruct (overFieldLimit _ _).
  - destruct (ReplaceWithMarker (cfg t)); [ apply unique_keys_map_set | ]; exact H.
  - apply unique_keys_map_set, H.
Qed.

Lemma members_of_trim_members (t : Trimmer) (depth : Z) (Q : Value -> Prop)
  (m : list (string * Value)) :
  (ReplaceWithMarker (cfg t) = true -> Q (VStr Marker)) ->
  Forall (fun kv =>
            not_nil (trimFields t (snd kv) (depth + 1)) = true ->
            overFieldLimit t (trimFields t (snd kv) (depth + 1)) = false ->
            Q (trimFields t (snd kv) (depth + 1))) m ->
  forall acc,
    (forall k x, In (k, x) acc -> Q x) ->
    forall k x, In (k, x) (fold_left (trim_member t depth) m acc) -> Q x.
Proof.
  intros HM. induction 1 as [ | kv m Hkv _ IH ]; intros acc Hacc; simpl.
  - exact Hacc.
  - apply IH. intros k x Hin. unfold trim_member in Hin.
    destruct (not_nil _) eqn:N; [ | eapply Hacc, Hin ].
    destruct (overFieldLimit _ _) eqn:O.
    + destruct (ReplaceWithMarker (cfg t)); [ | eapply Hacc, Hin ].
      apply In_map_set in Hin.
      destruct Hin as [ [ _ -> ] | Hin ]; [ apply HM; reflexivity | eapply Hacc, Hin ].
    + apply In_map_set in Hin.
      destruct Hin as [ [ _ -> ] | Hin ]; [ apply Hkv; auto | eapply Hacc, Hin ].
Qed.

Lemma elements_of_trim_elements (t : Trimmer) (depth : Z) (Q : Value -> Prop)
  (l : list Value) :
  (ReplaceWithMarker (cfg t) = true -> Q (VStr Marker)) ->
  Forall (fun x =>
            not_nil (trimFields t x (depth + 1)) = true ->
            overFieldLimit t (trimFields t x (depth + 1)) = false ->
            Q (trimFields t x (depth + 1))) l ->
  forall acc, Forall Q acc -> Forall Q (fold_left (trim_element t depth) l acc).
Proof.
  intros HM. induction 1 as [ | x l Hx _ IH ]; intros acc Hacc; simpl.
  - exact Hacc.
  - apply IH. unfold trim_element.
    destruct (not_nil _) eqn:N; [ | exact Hacc ].
    destruct (overFieldLimit _ _) eqn:O.
    + destruct (ReplaceWithMarker (cfg t)); [ | exact Hacc ].
      apply Forall_app. split; [ exact Hacc | ].
      constructor; [ apply HM; reflexivity | constructor ].
    + apply Forall_app. split; [ exact Hacc | ].
      constructor; [ apply Hx; auto | constructor ].
Qed.

Lemma trimFields_Marker_fixed (t : Trimmer) (depth : Z) :
  ReplaceWithMarker (cfg t) = true ->
  9 <= FieldLimit (cfg t) ->
  trimFields t (VStr Marker) depth = VStr Marker.
Proof.
  intros HM HF. simpl. unfold removed. rewrite HM.
  destruct (depth >? MaxDepth (cfg t)); [ reflexivity | ].
  change (len Marker) with 9.
  destruct (Z.gtb_spec 9 (FieldLimit (cfg t))); [ lia | reflexivity ].
Qed.

Lemma trimFields_removed_fixed (t : Trimmer) (depth : Z) :
  ReplaceWithMarker (cfg t) = false \/ 9 <= FieldLimit (cfg t) ->
  trimFields t (removed t) depth = removed t.
Proof.
  intros H. unfold removed.
  destruct (ReplaceWithMarker (cfg t)) eqn:HM.
  - destruct H as [ H | H ]; [ discriminate | ].
    apply trimFields_Marker_fixed; assumption.
  - simpl. unfold removed. rewrite HM.
    destruct (depth >? MaxDepth (cfg t)); reflexivity.
Qed.

Lemma trim_element_fixed (t : Trimmer) (depth : Z) (l : list Value) :
  Forall (fun x =>
            trimFields t x (depth + 1) = x /\ not_nil x = true
            /\ (overFieldLimit t x = false
                \/ (x = VStr Marker /\ ReplaceWithMarker (cfg t) = true))) l ->
  forall acc, fold_left (trim_element t depth) l acc = (acc ++ l)%list.
Proof.
  induction 1 as [ | x l [ Hfix [ Hnn Hov ] ] _ IH ]; intros acc; simpl.
  - rewrite app_nil_r. reflexivity.
  - assert (Hstep : trim_element t depth acc x = (acc ++ [x])%list).
    { unfold trim_element. rewrite Hfix, Hnn.
      destruct (overFieldLimit t x) eqn:O; [ | reflexivity ].
      destruct Hov as [ Hov | [ -> HM ] ]; [ discriminate | ].
      rewrite HM. reflexivity. }
    rewrite Hstep, IH, <- app_assoc. reflexivity.
Qed.

Lemma trimFields_twice (t : Trimmer) :
  ReplaceWithMarker (cfg t) = false \/ 9 <= FieldLimit (cfg t) ->
  forall v depth,
    trimFields t (trimFields t v depth) depth = trimFields t v depth.
Proof.
  intros Hcfg v depth. destruct (depth >? MaxDepth (cfg t)) eqn:E.
  { rewrite !trimFields_cut by (apply Z.gtb_gt; exact E). reflexivity. }
  revert depth E.
  induction v as [ | b | r | s | m IH | l IH ] using Value_tree_ind; intros depth E.
  - simpl. rewrite E. simpl. rewrite E. reflexivity.
  - simpl. rewrite E. simpl. rewrite E. reflexivity.
  - simpl. rewrite E. simpl. rewrite E. reflexivity.
  - destruct (trimFields_VStr_cases t s depth) as [ H | [ [ H L ] | [ s' [ H L ] ] ] ];
      rewrite H.
    + apply trimFields_removed_fixed, Hcfg.
    + simpl. rewrite E.
      destruct (Z.gtb_spec (len s) (FieldLimit (cfg t))); [ lia | reflexivity ].
    + simpl. rewrite E.
      destruct (Z.gtb_spec (len s') (FieldLimit (cfg t))); [ lia | reflexivity ].
  - rewrite (trimFields_VObj t m depth E).
    rewrite trimFields_VObj by exact E. f_equal.
    assert (Hchild : forall x d, In x (map snd m) ->
               trimFields t (trimFields t x d) d = trimFields t x d).
    { intros x d Hin. apply in_map_iff in Hin. destruct Hin as [ kv [ <- Hin ] ].
      rewrite Forall_forall in IH.
      destruct (d >? MaxDepth (cfg t)) eqn:Ed.
      - rewrite !trimFields_cut by (apply Z.gtb_gt; exact Ed). reflexivity.
      - apply (IH kv Hin d Ed). }
    rewrite (fold_map_set_rebuilds (trim_member t depth) _ []);
      [ reflexivity | | apply unique_keys_trim_members; reflexivity | reflexivity ].
    intros out [k x] Hin.
    assert (HQ : trimFields t x (depth + 1) = x /\ not_nil x = true
                 /\ (overFieldLimit t x = false
                     \/ (x = VStr Marker /\ ReplaceWithMarker (cfg t) = true))).
    { revert k x Hin.
      apply (members_of_trim_members t depth
               (fun x => trimFields t x (depth + 1) = x /\ not_nil x = true
                         /\ (overFieldLimit t x = false
                             \/ (x = VStr Marker /\ ReplaceWithMarker (cfg t) = true)))
               m).
      - intros HM. split; [ | split; [ reflexivity | right; split; [ reflexivity | exact HM ] ] ].
        destruct Hcfg as [ Hc | Hc ]; [ congruence | ].
        apply trimFields_Marker_fixed; assumption.
      - apply Forall_forall. intros kv Hkv Hnn Hov.
        split; [ | split; [ exact Hnn | left; exact Hov ] ].
        apply Hchild. apply in_map. exact Hkv.
      - intros ? ? []. }
    destruct HQ as [ Hfix [ Hnn Hov ] ].
    unfold trim_member. cbn [fst snd]. rewrite Hfix, Hnn.
    destruct (overFieldLimit t x) eqn:O; [ | reflexivity ].
    destruct Hov as [ Hov | [ -> HM ] ]; [ discriminate | ].
    rewrite HM. reflexivity.
  - rewrite (trimFields_VArr t l depth E).
    rewrite trimFields_VArr by exact E. f_equal.
    rewrite (trim_element_fixed t depth _); [ reflexivity | ].
    apply elements_of_trim_elements; [ | | constructor ].
    + intros HM. split; [ | split; [ reflexivity | right; split; [ reflexivity | exact HM ] ] ].
      destruct Hcfg as [ Hc | Hc ]; [ congruence | ].
      apply trimFields_Marker_fixed; assumption.
    + eapply Forall_impl; [ | exact IH ]. intros x Hx Hnn Hov.
      split; [ | split; [ exact Hnn | left; exact Hov ] ].
      destruct (depth + 1 >? MaxDepth (cfg t)) eqn:Ed.
      * rewrite !trimFields_cut by (apply Z.gtb_gt; exact Ed). reflexivity.
      * apply (Hx _ Ed).
Qed.

(** X15.  Trimming twice is trimming once: the field trimmer returns its
    own result unchanged, at every depth, provided the marker itself fits
    ([FieldLimit] of 9 or more) or markers are off. *)
Theorem trimFields_idempotent :
  forall (t : Trimmer) (v : Value) (depth : Z),
    ReplaceWithMarker (cfg t) = false \/ 9 <= FieldLimit (cfg t) ->
    trimFields t (trimFields t v depth) depth = trimFields t v depth.
Proof.
  intros t v depth H. apply trimFields_twice, H.
Qed.

Lemma trimFields_idempotent_witness :
  trimFields (New basicConfig) (trimFields (New basicConfig) basicInput 1) 1
  = trimFields (New basicConfig) basicInput 1.
Proof.
  apply (trimFields_idempotent (New basicConfig) basicInput 1).
  left. reflexivity.
Defined.

(** ** Markers keep the shape *)

Lemma trimFields_not_nil (t : Trimmer) (x : Value) (depth : Z) :
  ReplaceWithMarker (cfg t) = true ->
  not_nil x = true ->
  not_nil (trimFields t x depth) = true.
Proof.
  intros HM Hx. destruct (depth >? MaxDepth (cfg t)) eqn:E.
  { rewrite trimFields_cut by (apply Z.gtb_gt; exact E).
    unfold removed. rewrite HM. reflexivity. }
  destruct x as [ | b | r | s | m | l ]; try discriminate.
  - simpl. rewrite E. reflexivity.
  - simpl. rewrite E. reflexivity.
  - destruct (trimFields_VStr_cases t s depth) as [ H | [ [ H _ ] | [ s' [ H _ ] ] ] ];
      rewrite H; try reflexivity.
    unfold removed. rewrite HM. reflexivity.
  - rewrite trimFields_VObj by exact E. reflexivity.
  - rewrite trimFields_VArr by exact E. reflexivity.
Qed.

Lemma trim_members_keep_keys (t : Trimmer) (depth : Z) (k : string)
  (m : list (string * Value)) :
  forall acc,
    In k (map fst acc) ->
    In k (map fst (fold_left (trim_member t depth) m acc)).
Proof.
  induction m as [ | kv m IH ]; intros acc H; simpl; [ exact H | ].
  apply IH. unfold trim_member. destruct (not_nil _); [ | exact H ].
  destruct (overFieldLimit _ _).
  - destruct (ReplaceWithMarker (cfg t)); [ apply In_keys_map_set_old | ]; exact H.
  - apply In_keys_map_set_old, H.
Qed.

Lemma trim_elements_count (t : Trimmer) (depth : Z) (l : list Value) :
  ReplaceWithMarker (cfg t) = true ->
  depth + 1 <= MaxDepth (cfg t) ->
  forall acc,
    List.length (fold_left (trim_element t depth) l acc)
    = (List.length acc + List.length (filter not_nil l))%nat.
Proof.
  intros HM Hd. induction l as [ | x l IH ]; intros acc; simpl; [ lia | ].
  rewrite IH. unfold trim_element.
  destruct (not_nil x) eqn:Hx.
  - rewrite (trimFields_not_nil t x (depth + 1) HM Hx), HM.
    destruct (overFieldLimit _ _); rewrite length_app; simpl; lia.
  - destruct x; try discriminate.
    rewrite trimFields_plain_scalar by (auto; reflexivity). simpl. lia.
Qed.

(** X16.  With [ReplaceWithMarker] the field trimmer keeps the shape of
    what it descends into: every key of an object whose member is not
    null is still a key of the trimmed object (with the member or the
    marker under it), and a trimmed array has one element, kept or
    replaced by the marker, for every element that is not null. *)
Theorem markers_keep_shape :
  forall (t : Trimmer) (depth : Z),
    ReplaceWithMarker (cfg t) = true ->
    depth <= MaxDepth (cfg t) ->
    (forall (m : list (string * Value)) (k : string) (x : Value),
        In (k, x) m -> not_nil x = true ->
        exists m', trimFields t (VObj m) depth = VObj m' /\ In k (map fst m'))
    /\ (forall l : list Value,
           depth + 1 <= MaxDepth (cfg t) ->
           exists l',
             trimFields t (VArr l) depth = VArr l'
             /\ List.length l' = List.length (filter not_nil l)).
Proof.
  intros t depth HM Hd.
  assert (E : (depth >? MaxDepth (cfg t)) = false).
  { destruct (Z.gtb_spec depth (MaxDepth (cfg t))); [ lia | reflexivity ]. }
  split.
  - intros m k x Hin Hx. rewrite trimFields_VObj by exact E.
    eexists. split; [ reflexivity | ].
    generalize (@nil (string * Value)) as acc.
    induction m as [ | kv m IH ]; intros acc; [ destruct Hin | ].
    destruct Hin as [ -> | Hin ]; simpl; [ | apply IH, Hin ].
    apply trim_members_keep_keys. unfold trim_member. cbn [fst snd].
    rewrite (trimFields_not_nil t x (depth + 1) HM Hx), HM.
    destruct (overFieldLimit _ _); apply In_keys_map_set_same.
  - intros l Hd1. rewrite trimFields_VArr by exact E.
    eexists. split; [ reflexivity | ].
    rewrite (trim_elements_count t depth l HM Hd1 []). reflexivity.
Qed.

Lemma markers_keep_shape_witness :
  exists m',
    trimFields (New replaceConfig) (VObj replaceInput) 1 = VObj m'
    /\ In "drop" (map fst m').
Proof.
  apply (proj1 (markers_keep_shape (New replaceConfig) 1 eq_refl
                  ltac:(vm_compute; discriminate))
           replaceInput "drop" (VStr (repeat_byte "x" 200))).
  - right. left. reflexivity.
  - reflexivity.
Defined.

(** ** [FIFO] on an array *)

Lemma enforceTotal_FIFO_array (t : Trimmer) :
  Strategy (cfg t) = Some FIFO ->
  ReplaceWithMarker (cfg t) = false ->
  forall fuel l v',
    enforceTotal fuel t (VArr l) = Done v' ->
    exists k,
      v' = VArr (skipn k l)
      /\ (forall j, (j < k)%nat ->
                     len (Json.Marshal (VArr (skipn j l))) > TotalLimit (cfg t)).
Proof.
  intros Hs HM. induction fuel as [ | fuel IH ]; intros l v' H; [ discriminate | ].
  rewrite enforceTotal_S, Hs in H.
  destruct (Z.leb_spec (len (Json.Marshal (VArr l))) (TotalLimit (cfg t)))
    as [ Hle | Hgt ].
  { inversion H. exists 0%nat. split; [ reflexivity | intros j Hj; lia ]. }
  destruct l as [ | x l ].
  - simpl in H. inversion H. exists 0%nat. split; [ reflexivity | intros j Hj; lia ].
  - assert (Htok : SelectNextToRemove FIFO (VArr (x :: l)) = "idx:" ++ Sprintf_d 0)
      by reflexivity.
    rewrite Htok in H.
    assert (Hne : String.eqb ("idx:" ++ Sprintf_d 0) "" = false) by reflexivity.
    rewrite Hne in H.
    assert (Hrm : applyRemoval t (VArr (x :: l)) ("idx:" ++ Sprintf_d 0) = VArr l).
    { unfold applyRemoval. rewrite HasPrefix_idx, slice_from_idx, Sscanf_d_Sprintf_d.
      rewrite HM. reflexivity. }
    rewrite Hrm in H. destruct (IH l v' H) as [ k [ Hv' Hk ] ].
    exists (S k). split; [ exact Hv' | ].
    intros [ | j ] Hj; cbn [skipn]; [ apply Z.lt_gt; exact Hgt | apply Hk; lia ].
Qed.

(** X17.  [FIFO] without markers drops an array from the front: the array
    the enforcer ends with is what is left of the initial one after its
    first [k] elements, and every shorter cut was still over
    [TotalLimit]. *)
Theorem FIFO_drops_from_the_front :
  forall (t : Trimmer) (fuel : nat) (l : list Value) (v' : Value),
    Strategy (cfg t) = Some FIFO ->
    ReplaceWithMarker (cfg t) = false ->
    enforceTotal fuel t (VArr l) = Done v' ->
    exists k,
      v' = VArr (skipn k l)
      /\ (forall j, (j < k)%nat ->
                     len (Json.Marshal (VArr (skipn j l))) > TotalLimit (cfg t)).
Proof.
  intros t fuel l v' Hs HM H. eapply enforceTotal_FIFO_array; eassumption.
Qed.

Lemma FIFO_drops_from_the_front_witness :
  exists k,
    VArr [VStr (repeat_byte "c" 10)] = VArr (skipn k fifoInput)
    /\ (forall j, (j < k)%nat ->
                   len (Json.Marshal (VArr (skipn j fifoInput)))
                   > TotalLimit (cfg (New fifoConfig))).
Proof.
  apply (FIFO_drops_from_the_front (New fifoConfig) 4 fifoInput
           (VArr [VStr (repeat_byte "c" 10)]) eq_refl eq_refl).
  vm_compute. reflexivity.
Defined.

(** ** Blacklisted paths in the output *)



















